(** * ai-sidebar: the chat hook [useChat] and the thinking-block parser

    A shallow embedding of

    - [src/hooks/useChat.ts]: the per-tab conversation store
      [tabChatStates], the React state of one hook instance, the
      [AbortController] kept in [abortControllerRef], and the operations
      [sendMessage], [summarizePage], [clearMessages] together with the
      asynchronous continuations of a provider call (chunk callback,
      resolution, rejection);
    - [src/components/Markdown.tsx]: [parseContent].

    JavaScript strings are sequences of UTF-16 code units; they are
    modelled as [list N].  The global [Map<number, TabChatState>] is a
    [gmap Z TabChatState]. *)

From Stdlib Require Import NArith ZArith List Ascii String DecimalString DecimalN.
From stdpp Require Import gmap list fin_maps.

Open Scope N_scope.
Open Scope list_scope.

(** ** JavaScript strings *)

Module Js.

Abbreviation jsstring := (list N).

(** An ASCII literal of the source as a sequence of code units. *)
Definition lit (s : string) : jsstring :=
  List.map N_of_ascii (list_ascii_of_string s).

(** ECMAScript [WhiteSpace] and [LineTerminator] code points, the ones
    [String.prototype.trim] strips. *)
Definition isWhiteSpace (c : N) : bool :=
  existsb (N.eqb c)
    [ 9; 10; 11; 12; 13; 32; 160; 5760; 8232; 8233; 8239; 8287; 12288; 65279 ]
  || ((8192 <=? c) && (c <=? 8202)).

Fixpoint trimStart (s : jsstring) : jsstring :=
  match s with
  | [] => []
  | c :: s' => if isWhiteSpace c then trimStart s' else s
  end.

Definition trimEnd (s : jsstring) : jsstring := rev (trimStart (rev s)).

Definition trim (s : jsstring) : jsstring := trimEnd (trimStart s).

(** [s.slice(a, b)] for [0 <= a <= b]. *)
Definition slice (a b : N) (s : jsstring) : jsstring :=
  take (N.to_nat (b - a)) (drop (N.to_nat a) s).

(** Truthiness of a string: the empty string is falsy. *)
Definition truthy (s : jsstring) : bool :=
  match s with [] => false | _ :: _ => true end.

(** A literal of a regular expression matched at the head of [s]. *)
Fixpoint starts_with (pat s : jsstring) : bool :=
  match pat, s with
  | [], _ => true
  | p :: pat', c :: s' => (p =? c) && starts_with pat' s'
  | _ :: _, [] => false
  end.

(** The lazy quantifier [[\s\S]*?] followed by the literal [l]: the
    quantifier first takes no character and one more after each failure
    of the literal.  The result is the text taken by the quantifier and
    the text after the literal. *)
Fixpoint lazy_then (l s : jsstring) {struct s} : option (jsstring * jsstring) :=
  if starts_with l s then Some ([], drop (length l) s)
  else match s with
       | [] => None
       | c :: s' =>
           match lazy_then l s' with
           | Some (cap, rest) => Some (c :: cap, rest)
           | None => None
           end
       end.

End Js.

Import Js.

(** ** [Markdown.tsx]: [parseContent] *)

Module Markdown.

Definition open_tag : jsstring := lit "<think>".
Definition close_tag : jsstring := lit "</think>".

(** [/<think>([\s\S]*?)<\/think>/]: the match is attempted at each start
    index from left to right.  The result is the text before the match,
    group 1 and the text after the match. *)
Fixpoint match_closed (s : jsstring) : option (jsstring * jsstring * jsstring) :=
  let here :=
    if starts_with open_tag s
    then lazy_then close_tag (drop (length open_tag) s)
    else None in
  match here with
  | Some (cap, rest) => Some ([], cap, rest)
  | None =>
      match s with
      | [] => None
      | c :: s' =>
          match match_closed s' with
          | Some (pre, cap, rest) => Some (c :: pre, cap, rest)
          | None => None
          end
      end
  end.

(** The second pattern of [parseContent], the opening tag followed by a
    greedy any-character group and the end-of-input anchor: the greedy
    quantifier runs to the end of the input, where the anchor matches.
    The result is the text before the match and group 1. *)
Fixpoint match_streaming (s : jsstring) : option (jsstring * jsstring) :=
  if starts_with open_tag s then Some ([], drop (length open_tag) s)
  else match s with
       | [] => None
       | c :: s' =>
           match match_streaming s' with
           | Some (pre, cap) => Some (c :: pre, cap)
           | None => None
           end
       end.

(** [content.replace(/<think>[\s\S]*?<\/think>/, '')]: the first match
    is replaced by the empty string. *)
Definition replace_closed (content : jsstring) : jsstring :=
  match match_closed content with
  | Some (pre, _, rest) => pre ++ rest
  | None => content
  end.

Record Parsed := {
  thinking : option jsstring;
  mainContent : jsstring;
  isThinkingStreaming : bool
}.

Definition parseContent (content : jsstring) : Parsed :=
  match match_closed content with
  | Some (_, g1, _) =>
      {| thinking := Some (trim g1);
         mainContent := trim (replace_closed content);
         isThinkingStreaming := false |}
  | None =>
      match match_streaming content with
      | Some (_, g1) =>
          {| thinking := Some (trim g1);
             mainContent := [];
             isThinkingStreaming := true |}
      | None =>
          {| thinking := None;
             mainContent := content;
             isThinkingStreaming := false |}
      end
  end.

End Markdown.

(** ** [useChat.ts]: data *)

Module UseChat.

(** [generateId]: [`${Date.now()}-${Math.random().toString(36).slice(2, 9)}`].
    The clock value [now] and the base-36 rendering [random36] of the
    random number (a text such as [0.i3k9x2ab7]) are inputs. *)
Definition decimal (n : N) : jsstring :=
  lit (NilEmpty.string_of_uint (N.to_uint n)).

Definition generateId (now : N) (random36 : jsstring) : jsstring :=
  decimal now ++ lit "-" ++ slice 2 9 random36.

(** What one message creation reads from the environment: [Date.now()]
    and [Math.random().toString(36)] inside [generateId], and the second
    [Date.now()] of [createdAt]. *)
Record Stamp := {
  now_id : N;
  random36 : jsstring;
  now_created : N
}.

Inductive Role := user | assistant.

(** [ChatMessage] is declared in [@/types]; the record has the four
    fields that the hook writes. *)
Record ChatMessage := {
  m_id : jsstring;
  m_role : Role;
  m_content : jsstring;
  m_createdAt : N
}.

Definition newMessage (st : Stamp) (r : Role) (c : jsstring) : ChatMessage :=
  {| m_id := generateId (now_id st) (random36 st);
     m_role := r;
     m_content := c;
     m_createdAt := now_created st |}.

(** [TabChatState]: [{ messages, error }]. *)
Record TabChatState := {
  tab_messages : list ChatMessage;
  tab_error : option jsstring
}.

Definition emptyTab : TabChatState :=
  {| tab_messages := []; tab_error := None |}.

(** A value caught by [catch (err)]: an instance of [Error] with its
    [name] and [message], or any other value. *)
Inductive Thrown :=
| ThrownError (name message : jsstring)
| ThrownOther.

(** The two provider calls, with the arguments the hook computes. *)
Inductive ProviderCall :=
| ChatCall (currentMessages : list ChatMessage) (systemPrompt : jsstring)
| SummarizeCall (pageContent : jsstring).

(** One pending invocation of [sendMessage] or [summarizePage], suspended
    at its [await]: the variables its closures captured and its local
    [fullContent].  [c_messages] is the [messages] that [sendMessage]
    closes over; [summarizePage] closes over none and the field is empty
    there.  [token] records which [AbortController] the invocation
    created; the source keeps no such reference (its guards read
    [abortControllerRef.current]), the field only serves to state
    properties of the token of a request. *)
Record Request := {
  call : ProviderCall;
  c_tabId : option Z;
  c_error : option jsstring;
  c_messages : list ChatMessage;
  fullContent : jsstring;
  settled : bool;
  token : nat
}.

(** The module-level map, the React state of the hook instance, the
    [tabId] argument of its latest render, the ref, the heap of
    controllers ([signal.aborted] of each, in creation order) and the
    pending invocations. *)
Record State := {
  tabChatStates : gmap Z TabChatState;
  tabId : option Z;
  messages : list ChatMessage;
  isLoading : bool;
  error : option jsstring;
  streamingContent : jsstring;
  abortControllerRef : option nat;
  controllers : list bool;
  requests : list Request
}.

(** *** State setters *)

Definition setMessages (v : list ChatMessage) (s : State) : State :=
  {| tabChatStates := tabChatStates s; tabId := tabId s; messages := v;
     isLoading := isLoading s; error := error s;
     streamingContent := streamingContent s;
     abortControllerRef := abortControllerRef s;
     controllers := controllers s; requests := requests s |}.

Definition setIsLoading (v : bool) (s : State) : State :=
  {| tabChatStates := tabChatStates s; tabId := tabId s; messages := messages s;
     isLoading := v; error := error s;
     streamingContent := streamingContent s;
     abortControllerRef := abortControllerRef s;
     controllers := controllers s; requests := requests s |}.

Definition setError (v : option jsstring) (s : State) : State :=
  {| tabChatStates := tabChatStates s; tabId := tabId s; messages := messages s;
     isLoading := isLoading s; error := v;
     streamingContent := streamingContent s;
     abortControllerRef := abortControllerRef s;
     controllers := controllers s; requests := requests s |}.

Definition setStreamingContent (v : jsstring) (s : State) : State :=
  {| tabChatStates := tabChatStates s; tabId := tabId s; messages := messages s;
     isLoading := isLoading s; error := error s;
     streamingContent := v;
     abortControllerRef := abortControllerRef s;
     controllers := controllers s; requests := requests s |}.

Definition setTabChatStates (v : gmap Z TabChatState) (s : State) : State :=
  {| tabChatStates := v; tabId := tabId s; messages := messages s;
     isLoading := isLoading s; error := error s;
     streamingContent := streamingContent s;
     abortControllerRef := abortControllerRef s;
     controllers := controllers s; requests := requests s |}.

Definition setTabId (v : option Z) (s : State) : State :=
  {| tabChatStates := tabChatStates s; tabId := v; messages := messages s;
     isLoading := isLoading s; error := error s;
     streamingContent := streamingContent s;
     abortControllerRef := abortControllerRef s;
     controllers := controllers s; requests := requests s |}.

Definition setRef (v : option nat) (s : State) : State :=
  {| tabChatStates := tabChatStates s; tabId := tabId s; messages := messages s;
     isLoading := isLoading s; error := error s;
     streamingContent := streamingContent s;
     abortControllerRef := v;
     controllers := controllers s; requests := requests s |}.

Definition setControllers (v : list bool) (s : State) : State :=
  {| tabChatStates := tabChatStates s; tabId := tabId s; messages := messages s;
     isLoading := isLoading s; error := error s;
     streamingContent := streamingContent s;
     abortControllerRef := abortControllerRef s;
     controllers := v; requests := requests s |}.

Definition setRequests (v : list Request) (s : State) : State :=
  {| tabChatStates := tabChatStates s; tabId := tabId s; messages := messages s;
     isLoading := isLoading s; error := error s;
     streamingContent := streamingContent s;
     abortControllerRef := abortControllerRef s;
     controllers := controllers s; requests := v |}.

Definition setFullContent (v : jsstring) (r : Request) : Request :=
  {| call := call r; c_tabId := c_tabId r; c_error := c_error r;
     c_messages := c_messages r; fullContent := v; settled := settled r;
     token := token r |}.

Definition settle (r : Request) : Request :=
  {| call := call r; c_tabId := c_tabId r; c_error := c_error r;
     c_messages := c_messages r; fullContent := fullContent r; settled := true;
     token := token r |}.

(** ** [useChat.ts]: operations *)

(** [getTabState], closed over [tabId]. *)
Definition getTabState (tab : option Z) (m : gmap Z TabChatState) : TabChatState :=
  match tab with
  | None => emptyTab
  | Some t =>
      match m !! t with
      | Some st => st
      | None => emptyTab
      end
  end.

(** [saveTabState], closed over [tabId]. *)
Definition saveTabState (tab : option Z)
    (newMessages : list ChatMessage) (newError : option jsstring)
    (s : State) : State :=
  match tab with
  | Some t =>
      setTabChatStates
        (<[t := {| tab_messages := newMessages; tab_error := newError |}]>
           (tabChatStates s)) s
  | None => s
  end.

(** [updateMessages], closed over [saveTabState] and [error]: the updater
    is applied to the latest [messages], the result is saved under the
    captured tab with the captured error, and becomes the new state. *)
Definition updateMessages (tab : option Z) (err : option jsstring)
    (updater : list ChatMessage -> list ChatMessage) (s : State) : State :=
  let newMessages := updater (messages s) in
  setMessages newMessages (saveTabState tab newMessages err s).

(** [abortControllerRef.current.abort()] when the ref is set. *)
Definition abortCurrent (s : State) : State :=
  match abortControllerRef s with
  | Some i => setControllers (<[i := true]> (controllers s)) s
  | None => s
  end.

(** [abortControllerRef.current = new AbortController()]. *)
Definition newAbortController (s : State) : State :=
  setRef (Some (length (controllers s)))
    (setControllers (controllers s ++ [false]) s).

(** [abortControllerRef.current?.signal.aborted], as a condition. *)
Definition currentAborted (s : State) : bool :=
  match abortControllerRef s with
  | Some i =>
      match controllers s !! i with
      | Some b => b
      | None => false
      end
  | None => false
  end.

Definition addRequest (r : Request) (s : State) : State :=
  setRequests (requests s ++ [r]) s.

Definition putRequest (rid : nat) (r : Request) (s : State) : State :=
  setRequests (<[rid := r]> (requests s)) s.

(** The literals of the source, as code units. *)
Definition basePrompt : jsstring :=
  [ 20320; 26159; 19968; 20010; 26234; 33021; 21161; 25163; 65292; 24110;
    21161; 29992; 25143; 29702; 35299; 21644; 20998; 26512; 32593; 39029;
    20869; 23481; 12290; 35831; 29992; 20013; 25991; 22238; 22797; 12290 ].

Definition contextHeader : jsstring :=
  [ 10; 10; 24403; 21069; 32593; 39029; 20869; 23481; 25688; 35201; 65306; 10 ].

Definition summaryRequest : jsstring :=
  [ 35831; 24635; 32467; 36825; 20010; 39029; 38754; 30340; 20869; 23481 ].

Definition chatFallback : jsstring :=
  [ 65; 73; 32; 21709; 24212; 22833; 36133 ].

Definition summaryFallback : jsstring :=
  [ 24635; 32467; 22833; 36133 ].

Definition abortErrorName : jsstring := lit "AbortError".

Definition systemPromptOf (pageContext : option jsstring) : jsstring :=
  match pageContext with
  | Some pc =>
      if truthy pc then basePrompt ++ contextHeader ++ slice 0 10000 pc
      else basePrompt
  | None => basePrompt
  end.

(** [sendMessage], up to its [await]. *)
Definition sendMessage (content : jsstring) (pageContext : option jsstring)
    (st : Stamp) (s : State) : State :=
  if negb (truthy (trim content)) then s
  else
    let s1 := newAbortController (abortCurrent s) in
    let userMessage := newMessage st user (trim content) in
    let currentMessages := messages s ++ [userMessage] in
    let s2 := updateMessages (tabId s) (error s) (fun _ => currentMessages) s1 in
    let s3 := setStreamingContent [] (setError None (setIsLoading true s2)) in
    addRequest
      {| call := ChatCall currentMessages (systemPromptOf pageContext);
         c_tabId := tabId s; c_error := error s; c_messages := messages s;
         fullContent := []; settled := false;
         token := length (controllers s) |} s3.

(** [summarizePage], up to its [await]. *)
Definition summarizePage (pageContent : jsstring) (st : Stamp) (s : State) : State :=
  let s1 := newAbortController (abortCurrent s) in
  let s2 := setStreamingContent [] (setError None (setIsLoading true s1)) in
  let userMessage := newMessage st user summaryRequest in
  let initialMessages := [userMessage] in
  let s3 := updateMessages (tabId s) (error s) (fun _ => initialMessages) s2 in
  addRequest
    {| call := SummarizeCall pageContent;
       c_tabId := tabId s; c_error := error s; c_messages := [];
       fullContent := []; settled := false;
       token := length (controllers s) |} s3.

(** [clearMessages]. *)
Definition clearMessages (s : State) : State :=
  let s1 := setRef None (abortCurrent s) in
  saveTabState (tabId s) [] None
    (setIsLoading false
       (setStreamingContent [] (setError None (setMessages [] s1)))).

(** The effect with dependencies [[tabId, getTabState]]: it runs when a
    render receives another [tabId]. *)
Definition tabEffect (t : option Z) (s : State) : State :=
  let s1 := setRef None (abortCurrent s) in
  let s2 := setIsLoading false (setStreamingContent [] s1) in
  let state := getTabState t (tabChatStates s2) in
  setError (tab_error state) (setMessages (tab_messages state) (setTabId t s2)).

Definition changeTab (t : option Z) (s : State) : State :=
  if decide (t = tabId s) then s else tabEffect t s.

(** The chunk callback of the pending invocation [rid]. *)
Definition onChunk (rid : nat) (chunk : jsstring) (s : State) : State :=
  match requests s !! rid with
  | Some r =>
      if currentAborted s then s
      else
        let full := fullContent r ++ chunk in
        setStreamingContent full (putRequest rid (setFullContent full r) s)
  | None => s
  end.

(** The continuation after [await] when the provider promise resolves
    with [response.content = content] (an absent content is the empty
    string, falsy as well).  The [finally] block runs on every path. *)
Definition onResolve (rid : nat) (content : jsstring) (st : Stamp) (s : State) : State :=
  match requests s !! rid with
  | Some r =>
      if settled r then s
      else
        let s0 := putRequest rid (settle r) s in
        if currentAborted s0 then setIsLoading false s0
        else
          let assistantMessage :=
            newMessage st assistant
              (if truthy content then content else fullContent r) in
          let s1 :=
            updateMessages (c_tabId r) (c_error r)
              (fun prev => prev ++ [assistantMessage]) s0 in
          setIsLoading false (setStreamingContent [] s1)
  | None => s
  end.

Definition isAbortError (err : Thrown) : bool :=
  match err with
  | ThrownError name _ => bool_decide (name = abortErrorName)
  | ThrownOther => false
  end.

(** [err instanceof Error ? err.message : fallback]. *)
Definition errorText (c : ProviderCall) (err : Thrown) : jsstring :=
  match err with
  | ThrownError _ message => message
  | ThrownOther =>
      match c with
      | ChatCall _ _ => chatFallback
      | SummarizeCall _ => summaryFallback
      end
  end.

(** The [catch] block when the provider promise rejects with [err]:
    [sendMessage] saves its captured [messages], [summarizePage] saves
    the empty list. *)
Definition onReject (rid : nat) (err : Thrown) (s : State) : State :=
  match requests s !! rid with
  | Some r =>
      if settled r then s
      else
        let s0 := putRequest rid (settle r) s in
        if isAbortError err then setIsLoading false s0
        else
          let message := errorText (call r) err in
          let saved :=
            match call r with
            | ChatCall _ _ => c_messages r
            | SummarizeCall _ => []
            end in
          setIsLoading false
            (saveTabState (c_tabId r) saved (Some message)
               (setError (Some message) s0))
  | None => s
  end.

(** ** Sessions *)

Inductive Event :=
| SendMessage (content : jsstring) (pageContext : option jsstring) (st : Stamp)
| SummarizePage (pageContent : jsstring) (st : Stamp)
| ClearMessages
| TabChange (t : option Z)
| Chunk (rid : nat) (chunk : jsstring)
| Resolve (rid : nat) (content : jsstring) (st : Stamp)
| Reject (rid : nat) (err : Thrown).

Definition step (s : State) (e : Event) : State :=
  match e with
  | SendMessage content pageContext st => sendMessage content pageContext st s
  | SummarizePage pageContent st => summarizePage pageContent st s
  | ClearMessages => clearMessages s
  | TabChange t => changeTab t s
  | Chunk rid chunk => onChunk rid chunk s
  | Resolve rid content st => onResolve rid content st s
  | Reject rid err => onReject rid err s
  end.

Definition run (s : State) (es : list Event) : State := fold_left step es s.

(** The first render of a hook instance for tab [t], the module-level map
    holding [m]. *)
Definition mount (m : gmap Z TabChatState) (t : option Z) : State :=
  {| tabChatStates := m; tabId := t;
     messages := tab_messages (getTabState t m);
     isLoading := false;
     error := tab_error (getTabState t m);
     streamingContent := [];
     abortControllerRef := None;
     controllers := [];
     requests := [] |}.

Inductive reachable : State -> Prop :=
| reachable_mount m t : reachable (mount m t)
| reachable_step s e : reachable s -> reachable (step s e).

(** The tab an operation is bound to: the [tabId] of the render whose
    closures perform it.  For a user operation this is the current
    [tabId]; for a continuation of a pending invocation it is the
    [tabId] the invocation captured. *)
Definition boundTab (s : State) (e : Event) : option Z :=
  match e with
  | Chunk rid _ | Resolve rid _ _ | Reject rid _ =>
      match requests s !! rid with
      | Some r => c_tabId r
      | None => tabId s
      end
  | _ => tabId s
  end.

(** The events at which the hook cancels: a [sendMessage] that passes the
    blank-input guard, [summarizePage], [clearMessages], and a render
    with another tab id. *)
Definition cancels (s : State) (e : Event) : bool :=
  match e with
  | SendMessage content _ _ => truthy (trim content)
  | SummarizePage _ _ => true
  | ClearMessages => true
  | TabChange t => bool_decide (t <> tabId s)
  | _ => false
  end.

(** The events at which an operation of the hook begins or the bound tab
    id changes, whatever the input of [sendMessage]. *)
Definition begins (s : State) (e : Event) : bool :=
  match e with
  | SendMessage _ _ _ => true
  | SummarizePage _ _ => true
  | ClearMessages => true
  | TabChange t => bool_decide (t <> tabId s)
  | _ => false
  end.

(** The events that create a controller. *)
Definition creates (s : State) (e : Event) : bool :=
  match e with
  | SendMessage content _ _ => truthy (trim content)
  | SummarizePage _ _ => true
  | _ => false
  end.

(** Tokens that are not aborted. *)
Definition live (cs : list bool) (i : nat) : Prop := cs !! i = Some false.

(** The shape of the controllers between two events: every token but the
    current one is aborted, and the current one is not. *)
Definition tokensOk (s : State) : Prop :=
  (forall i, live (controllers s) i -> abortControllerRef s = Some i) /\
  (forall i, abortControllerRef s = Some i -> live (controllers s) i).

(** The chunks that a run of events delivers to the invocation [rid], in
    arrival order. *)
Fixpoint chunksOf (rid : nat) (es : list Event) : list jsstring :=
  match es with
  | [] => []
  | Chunk rid' c :: es' =>
      if decide (rid' = rid) then c :: chunksOf rid es' else chunksOf rid es'
  | _ :: es' => chunksOf rid es'
  end.

(** ** Concrete sessions *)

Definition stampA : Stamp :=
  {| now_id := 1700000000000; random36 := lit "0.i3k9x2ab7zz";
     now_created := 1700000000000 |}.

Definition stampB : Stamp :=
  {| now_id := 1700000000500; random36 := lit "0.q1w2e3r4t5";
     now_created := 1700000000500 |}.

(** A hook mounted on tab 1 with an empty store, after [sendMessage('hi')]. *)
Definition asked : State :=
  run (mount ∅ (Some 1%Z)) [SendMessage (lit "hi") None stampA].

(** The same session after the user cleared the conversation while the
    provider call was pending. *)
Definition askedThenCleared : State := run asked [ClearMessages].

(** A hook mounted on tab 1 with an empty store, after [summarizePage]. *)
Definition summarizing : State :=
  run (mount ∅ (Some 1%Z)) [SummarizePage (lit "page text") stampA].

(** Two messages created within one millisecond with equal random draws. *)
Definition askedTwice : State :=
  run (mount ∅ (Some 1%Z))
    [SendMessage (lit "hi") None stampA; SendMessage (lit "again") None stampA].

End UseChat.

(** ** [useChat.ts]: runs of events *)

Module Session.

Import UseChat.

(** Whether a run of events settles the provider promise of the
    invocation [rid]. *)
Fixpoint settles (rid : nat) (es : list Event) : bool :=
  match es with
  | [] => false
  | Resolve rid' _ _ :: es' | Reject rid' _ :: es' =>
      bool_decide (rid' = rid) || settles rid es'
  | _ :: es' => settles rid es'
  end.

(** The most recent invocation. *)
Definition latest (s : State) : option Request := last (requests s).

(** A code unit that [trim] strips. *)
Definition blank (c : N) : Prop := isWhiteSpace c = true.

(** The bookkeeping that links provider calls to controllers: one
    controller per call, created together, and the ref can only hold the
    newest controller. *)
Definition callsOk (s : State) : Prop :=
  length (requests s) = length (controllers s) /\
  (forall rid r, requests s !! rid = Some r -> token r = rid) /\
  (forall i, abortControllerRef s = Some i ->
             S i = length (controllers s))%nat.

End Session.

(** ** [Markdown.tsx]: what the component renders *)

Module MarkdownView.

Import Markdown.

(** The two conditional children of [Markdown]: the [ThinkingBlock] with
    its [content] and [isStreaming] props, rendered when [thinking] is
    truthy, and the [ReactMarkdown] body, rendered when [mainContent] is
    truthy. *)
Record Rendered := {
  thinkingBlock : option (jsstring * bool);
  markdownBody : option jsstring
}.

Definition render (content : jsstring) : Rendered :=
  let p := parseContent content in
  {| thinkingBlock :=
       match thinking p with
       | Some t => if truthy t then Some (t, isThinkingStreaming p) else None
       | None => None
       end;
     markdownBody :=
       if truthy (mainContent p) then Some (mainContent p) else None |}.

End MarkdownView.

(** ** [combobox.tsx] *)

Module Combobox.

Record ComboboxOption := {
  value : jsstring;
  label : jsstring
}.

(** The React state of the component. *)
Record CState := {
  isOpen : bool;
  filteredOptions : list ComboboxOption
}.

Definition setIsOpen (v : bool) (st : CState) : CState :=
  {| isOpen := v; filteredOptions := filteredOptions st |}.

Definition setFilteredOptions (v : list ComboboxOption) (st : CState) : CState :=
  {| isOpen := isOpen st; filteredOptions := v |}.

(** [hay.includes(needle)]. *)
Fixpoint includes (hay needle : jsstring) : bool :=
  starts_with needle hay ||
  match hay with
  | [] => false
  | _ :: hay' => includes hay' needle
  end.

(** [options.find(opt => opt.value === value)]. *)
Definition findValue (v : jsstring) (options : list ComboboxOption)
  : option ComboboxOption :=
  List.find (fun opt => bool_decide (value opt = v)) options.


Section Handlers.

(** [String.prototype.toLowerCase], the Unicode case mapping of the
    engine. *)
Variable toLowerCase : jsstring -> jsstring.

(** The predicate of [options.filter] in [handleInputChange]. *)
Definition matchesInput (inputValue : jsstring) (opt : ComboboxOption) : bool :=
  includes (toLowerCase (label opt)) (toLowerCase inputValue)
  || includes (toLowerCase (value opt)) (toLowerCase inputValue).

(** Each handler returns the next state and the values it passed to
    [onChange], in call order. *)
Definition handleInputChange (options : list ComboboxOption)
    (inputValue : jsstring) (st : CState) : CState * list jsstring :=
  let st1 :=
    if truthy (trim inputValue)
    then setFilteredOptions (List.filter (matchesInput inputValue) options) st
    else setFilteredOptions options st in
  (setIsOpen true st1, [inputValue]).

(** The input's [onFocus]. *)
Definition handleFocus (st : CState) : CState := setIsOpen true st.

(** [inputRef.current?.focus()]: when the input does not have the focus
    it receives it and its [onFocus] runs; when it has the focus nothing
    happens. *)
Definition focusInput (focused : bool) (st : CState) : CState :=
  if focused then st else handleFocus st.

(** [handleSelect]; [focused] tells whether the input has the focus when
    the handler runs. *)
Definition handleSelect (focused : bool) (optionValue : jsstring) (st : CState)
  : CState * list jsstring :=
  (focusInput focused (setIsOpen false st), [optionValue]).

(** [handleKeyDown] is the [onKeyDown] of the input, which has the focus
    when a key event reaches it. *)
Definition handleKeyDown (v : jsstring) (key : jsstring) (st : CState)
  : CState * list jsstring :=
  if bool_decide (key = lit "Escape") then (setIsOpen false st, [])
  else if bool_decide (key = lit "ArrowDown") then (setIsOpen true st, [])
  else if bool_decide (key = lit "Enter") && isOpen st
          && negb (Nat.eqb (length (filteredOptions st)) 0)
  then
    match findValue v (filteredOptions st), filteredOptions st with
    | None, first :: _ => handleSelect true (value first) st
    | _, _ => (setIsOpen false st, [])
    end
  else (st, []).

(** The effect on [options]: the filtered list is reset. *)
Definition optionsEffect (options : list ComboboxOption) (st : CState) : CState :=
  setFilteredOptions options st.

(** The arrow button's [onClick] ([focused]: whether the input has the
    focus), and the document [mousedown] listener ([inside]: whether the
    container contains the event target). *)
Definition handleToggle (disabled focused : bool) (st : CState) : CState :=
  if disabled then st
  else focusInput focused (setIsOpen (negb (isOpen st)) st).

Definition handleClickOutside (inside : bool) (st : CState) : CState :=
  if inside then st else setIsOpen false st.

(** The two popups of the render: the option list, and the hint that a
    custom value will be used. *)
Definition showsList (st : CState) : bool :=
  isOpen st && negb (Nat.eqb (length (filteredOptions st)) 0).

Definition showsCustomHint (v : jsstring) (st : CState) : bool :=
  isOpen st && Nat.eqb (length (filteredOptions st)) 0 && truthy (trim v).

End Handlers.

End Combobox.

(** ** The icon script: the centred square crop *)

Module Icons.

Local Open Scope Z_scope.

(** The argument of [sharp(...).extract]. *)
Record Region := {
  left : Z;
  top : Z;
  width : Z;
  height : Z
}.

(** [size], [left] and [top] of [generateIcons] for an image of
    [w] by [h] pixels. *)
Definition cropRegion (w h : Z) : Region :=
  let size := Z.min w h in
  {| left := (w - size) / 2;
     top := (h - size) / 2;
     width := size;
     height := size |}.

(** The sizes of the icons and of the float icon. *)
Definition sizes : list Z := [16; 48; 128].
Definition floatIconSize : Z := 24.

End Icons.

(** * Properties *)

(** ** Matching literals and the lazy quantifier *)

Module JsFacts.

Local Open Scope nat_scope.

Lemma starts_with_app (pat r : jsstring) : starts_with pat (pat ++ r) = true.
Proof.
  induction pat as [|p pat IH]; simpl; [done|].
  by rewrite N.eqb_refl, IH.
Qed.

Lemma starts_with_inv (pat s : jsstring) :
  starts_with pat s = true -> s = pat ++ drop (length pat) s.
Proof.
  revert s. induction pat as [|p pat IH]; intros s H; simpl in *.
  - by rewrite drop_0.
  - destruct s as [|c s]; [done|].
    apply andb_prop in H as [Hc Hs]. apply N.eqb_eq in Hc. subst c.
    simpl. f_equal. by apply IH.
Qed.

Lemma lazy_then_unfold (l s : jsstring) :
  lazy_then l s =
    if starts_with l s then Some ([], drop (length l) s)
    else match s with
         | [] => None
         | c :: s' =>
             match lazy_then l s' with
             | Some (cap, rest) => Some (c :: cap, rest)
             | None => None
             end
         end.
Proof. by destruct s. Qed.

(** A successful lazy match splits the input at the first occurrence of
    the literal. *)
Lemma lazy_then_Some (l s cap rest : jsstring) :
  lazy_then l s = Some (cap, rest) ->
  s = cap ++ l ++ rest /\
  forall x y, s = x ++ l ++ y -> length cap <= length x.
Proof.
  revert cap rest. induction s as [|c s IH]; intros cap rest H;
    rewrite lazy_then_unfold in H.
  - destruct (starts_with l []) eqn:E; [|done].
    injection H as <- <-. split; [by apply starts_with_inv|].
    intros; simpl; lia.
  - destruct (starts_with l (c :: s)) eqn:E.
    + injection H as <- <-. split; [by apply starts_with_inv|].
      intros; simpl; lia.
    + destruct (lazy_then l s) as [[cap' rest']|] eqn:E'; [|done].
      injection H as <- <-.
      destruct (IH _ _ eq_refl) as [Hs Hmin]. split.
      * simpl. by rewrite <- Hs.
      * intros [|x0 x] y Hxy.
        -- simpl in Hxy. rewrite Hxy, starts_with_app in E. done.
        -- injection Hxy as _ Hxy. simpl. apply le_n_S. by eapply Hmin.
Qed.

(** A failed lazy match: the literal occurs nowhere. *)
Lemma lazy_then_None (l s : jsstring) :
  lazy_then l s = None -> forall x y, s <> x ++ l ++ y.
Proof.
  induction s as [|c s IH]; intros H x y Hxy; rewrite lazy_then_unfold in H.
  - destruct (starts_with l []) eqn:E; [done|].
    destruct x; simpl in Hxy.
    + by rewrite Hxy, starts_with_app in E.
    + done.
  - destruct (starts_with l (c :: s)) eqn:E; [done|].
    destruct (lazy_then l s) as [[cap' rest']|] eqn:E'; [done|].
    destruct x as [|x0 x]; simpl in Hxy.
    + by rewrite Hxy, starts_with_app in E.
    + injection Hxy as _ Hxy. by eapply IH.
Qed.

Lemma lazy_then_found (l x y : jsstring) :
  exists cap rest, lazy_then l (x ++ l ++ y) = Some (cap, rest).
Proof.
  destruct (lazy_then l (x ++ l ++ y)) as [[cap rest]|] eqn:E; [eauto|].
  by eapply lazy_then_None in E.
Qed.

(** Text that is only white space trims to the empty string. *)
Lemma trimStart_blank (s : jsstring) :
  forallb isWhiteSpace s = true -> trimStart s = [].
Proof.
  induction s as [|c s IH]; simpl; [done|].
  intros H. apply andb_prop in H as [Hc Hs]. rewrite Hc. by apply IH.
Qed.

Lemma trim_blank (s : jsstring) :
  forallb isWhiteSpace s = true -> trim s = [].
Proof. intros H. unfold trim. by rewrite trimStart_blank. Qed.

End JsFacts.

(** ** [parseContent] *)

Module MarkdownSpec.

Import Markdown JsFacts.
Local Open Scope nat_scope.

Lemma match_closed_unfold (s : jsstring) :
  match_closed s =
    match (if starts_with open_tag s
           then lazy_then close_tag (drop (length open_tag) s)
           else None) with
    | Some (cap, rest) => Some ([], cap, rest)
    | None =>
        match s with
        | [] => None
        | c :: s' =>
            match match_closed s' with
            | Some (pre, cap, rest) => Some (c :: pre, cap, rest)
            | None => None
            end
        end
    end.
Proof. by destruct s. Qed.

Lemma match_streaming_lazy (s : jsstring) :
  match_streaming s = lazy_then open_tag s.
Proof.
  induction s as [|c s IH]; [done|].
  rewrite lazy_then_unfold. rewrite <- IH. reflexivity.
Qed.

(** The scan over start indices finds the first opening tag that has a
    closing tag after it, which is the first opening tag of the input. *)
Lemma match_closed_lazy (s : jsstring) :
  match_closed s =
    match lazy_then open_tag s with
    | Some (pre, r) =>
        match lazy_then close_tag r with
        | Some (cap, post) => Some (pre, cap, post)
        | None => None
        end
    | None => None
    end.
Proof.
  induction s as [|c s IH]; [done|].
  rewrite match_closed_unfold, (lazy_then_unfold open_tag (c :: s)).
  destruct (starts_with open_tag (c :: s)) eqn:E.
  - destruct (lazy_then close_tag (drop (length open_tag) (c :: s)))
      as [[cap post]|] eqn:Ec; [done|].
    rewrite IH.
    destruct (lazy_then open_tag s) as [[pre r]|] eqn:Eo; [|done].
    destruct (lazy_then close_tag r) as [[cap post]|] eqn:Er; [|done].
    exfalso.
    apply lazy_then_Some in Eo as [-> _].
    apply lazy_then_Some in Er as [-> _].
    eapply (lazy_then_None _ _ Ec
              (drop (length open_tag) (c :: pre ++ open_tag)  ++ cap) post).
    change (c :: pre ++ open_tag ++ cap ++ close_tag ++ post)
      with ((c :: pre) ++ open_tag ++ cap ++ close_tag ++ post).
    rewrite <- (app_assoc _ cap), !(app_assoc _ _ (cap ++ close_tag ++ post)).
    rewrite drop_app_le; [done|].
    rewrite length_app. simpl. lia.
  - rewrite IH.
    destruct (lazy_then open_tag s) as [[pre r]|]; [|done].
    by destruct (lazy_then close_tag r) as [[cap post]|].
Qed.

Lemma drop_occurrence (n : nat) (u l y : jsstring) :
  n <= length u -> drop n (u ++ l ++ y) = drop n u ++ l ++ y.
Proof. intros H. by rewrite drop_app_le. Qed.

(** C10.  Thinking-block extraction.  (1) A text that contains a closed
    block, an opening tag with a closing tag somewhere after it, splits
    as [pre ++ <think> ++ inner ++ </think> ++ post] at its first
    opening tag and at the first closing tag after that one;
    [parseContent] returns the trimmed [inner] as the thinking part and
    the trimmed [pre ++ post] as the main content, not streaming.
    (2) A text that contains an opening tag and no closed block splits as
    [pre ++ <think> ++ rest] at its first opening tag; the main content
    is empty, whatever [pre] is, the thinking part is the trimmed [rest],
    and the result is marked streaming.  (3) A text without opening tag
    is returned unchanged as main content, without thinking part. *)
Theorem parseContent_think (content : jsstring) :
  (forall a b c,
      content = a ++ open_tag ++ b ++ close_tag ++ c ->
      exists pre inner post,
        content = pre ++ open_tag ++ inner ++ close_tag ++ post /\
        (forall a' b', content = a' ++ open_tag ++ b' -> length pre <= length a') /\
        (forall x y, inner ++ close_tag ++ post = x ++ close_tag ++ y ->
                     length inner <= length x) /\
        parseContent content =
          {| thinking := Some (trim inner);
             mainContent := trim (pre ++ post);
             isThinkingStreaming := false |}) /\
  (forall a b,
      content = a ++ open_tag ++ b ->
      (forall a' b' c', content <> a' ++ open_tag ++ b' ++ close_tag ++ c') ->
      exists pre rest,
        content = pre ++ open_tag ++ rest /\
        (forall a' b', content = a' ++ open_tag ++ b' -> length pre <= length a') /\
        parseContent content =
          {| thinking := Some (trim rest);
             mainContent := [];
             isThinkingStreaming := true |}) /\
  ((forall a b, content <> a ++ open_tag ++ b) ->
   parseContent content =
     {| thinking := None; mainContent := content; isThinkingStreaming := false |}).
Proof.
  split; [|split].
  - intros a b c Hc.
    destruct (lazy_then_found open_tag a (b ++ close_tag ++ c))
      as (pre & r & Eo).
    rewrite <- Hc in Eo.
    destruct (lazy_then_Some _ _ _ _ Eo) as [Hpre Hmin].
    assert (Hr : r = drop (length (pre ++ open_tag)) content).
    { rewrite Hpre at 1. by rewrite app_assoc, drop_app_length. }
    assert (Hle : length pre <= length a) by (by eapply Hmin).
    assert (Hr' : r = drop (length (pre ++ open_tag)) (a ++ open_tag ++ b)
                        ++ close_tag ++ c).
    { rewrite Hr, Hc.
      replace (a ++ open_tag ++ b ++ close_tag ++ c)
        with ((a ++ open_tag ++ b) ++ close_tag ++ c)
        by (by rewrite <- !app_assoc).
      apply drop_occurrence. rewrite !length_app. lia. }
    destruct (lazy_then_found close_tag
                (drop (length (pre ++ open_tag)) (a ++ open_tag ++ b)) c)
      as (inner & post & Ec).
    rewrite <- Hr' in Ec.
    destruct (lazy_then_Some _ _ _ _ Ec) as [Hinner Hmin'].
    exists pre, inner, post. repeat split.
    + by rewrite <- Hinner.
    + exact Hmin.
    + rewrite <- Hinner. exact Hmin'.
    + unfold parseContent, replace_closed.
      by rewrite match_closed_lazy, Eo, Ec.
  - intros a b Hc Hno.
    destruct (lazy_then_found open_tag a b) as (pre & r & Eo).
    rewrite <- Hc in Eo.
    destruct (lazy_then_Some _ _ _ _ Eo) as [Hpre Hmin].
    exists pre, r. repeat split; [done..|].
    unfold parseContent.
    rewrite match_closed_lazy, match_streaming_lazy, Eo.
    destruct (lazy_then close_tag r) as [[cap post]|] eqn:Ec; [|done].
    apply lazy_then_Some in Ec as [-> _]. by apply Hno in Hpre.
  - intros Hno. unfold parseContent.
    rewrite match_closed_lazy, match_streaming_lazy.
    destruct (lazy_then open_tag content) as [[pre r]|] eqn:Eo; [|done].
    apply lazy_then_Some in Eo as [Hpre _]. by apply Hno in Hpre.
Qed.

(** The three cases on concrete texts. *)
Lemma parseContent_think_witness :
  (exists pre inner post,
      lit "a<think> b </think>c<think>d</think>" =
        pre ++ open_tag ++ inner ++ close_tag ++ post /\
      parseContent (lit "a<think> b </think>c<think>d</think>") =
        {| thinking := Some (trim inner);
           mainContent := trim (pre ++ post);
           isThinkingStreaming := false |}) /\
  (exists pre rest,
      lit "a<think> b" = pre ++ open_tag ++ rest /\
      parseContent (lit "a<think> b") =
        {| thinking := Some (trim rest);
           mainContent := [];
           isThinkingStreaming := true |}) /\
  parseContent (lit "plain") =
    {| thinking := None; mainContent := lit "plain";
       isThinkingStreaming := false |}.
Proof.
  split; [|split].
  - destruct (parseContent_think (lit "a<think> b </think>c<think>d</think>"))
      as [H _].
    destruct (H (lit "a") (lit " b ") (lit "c<think>d</think>") eq_refl)
      as (pre & inner & post & H1 & _ & _ & H2).
    exists pre, inner, post. split; assumption.
  - destruct (parseContent_think (lit "a<think> b")) as (_ & H & _).
    assert (Hno : forall a' b' c' : jsstring,
               lit "a<think> b" <> a' ++ open_tag ++ b' ++ close_tag ++ c').
    { intros a' b' c' E.
      assert (L : length (lit "a<think> b")
                  = length (a' ++ open_tag ++ b' ++ close_tag ++ c'))
        by (by rewrite <- E).
      rewrite !length_app in L.
      change (length open_tag) with 7 in L.
      change (length close_tag) with 8 in L.
      change (length (lit "a<think> b")) with 10 in L. lia. }
    destruct (H (lit "a") (lit " b") eq_refl Hno) as (pre & rest & H1 & _ & H2).
    exists pre, rest. split; assumption.
  - destruct (parseContent_think (lit "plain")) as (_ & _ & H).
    apply H. intros a b E.
    assert (L : length (lit "plain") = length (a ++ open_tag ++ b))
      by (by rewrite <- E).
    rewrite !length_app in L.
    change (length open_tag) with 7 in L.
    change (length (lit "plain")) with 5 in L. lia.
Defined.

End MarkdownSpec.

(** ** The tab-state map *)

Module UseChatSpec.

Import UseChat JsFacts.
Local Open Scope nat_scope.

Lemma saveTabState_other (tab : option Z) ms err (s : State) (t' : Z) :
  tab <> Some t' ->
  tabChatStates (saveTabState tab ms err s) !! t' = tabChatStates s !! t'.
Proof.
  intros H. destruct tab as [t|]; simpl; [|done].
  apply lookup_insert_ne. congruence.
Qed.

Lemma saveTabState_same (t : Z) ms err (s : State) :
  tabChatStates (saveTabState (Some t) ms err s) !! t =
    Some {| tab_messages := ms; tab_error := err |}.
Proof. simpl. apply lookup_insert_eq. Qed.

Lemma saveTabState_null ms err (s : State) : saveTabState None ms err s = s.
Proof. reflexivity. Qed.

Lemma abortCurrent_map (s : State) :
  tabChatStates (abortCurrent s) = tabChatStates s.
Proof. unfold abortCurrent. by destruct (abortControllerRef s). Qed.

(** Every write of a step goes through [saveTabState] under the tab the
    step is bound to. *)
Lemma step_map_other (s : State) (e : Event) (t' : Z) :
  boundTab s e <> Some t' ->
  tabChatStates (step s e) !! t' = tabChatStates s !! t'.
Proof.
  destruct e as [content pc st|pc st| |t|rid chunk|rid content st|rid err];
    simpl; intros H.
  - unfold sendMessage. destruct (negb (truthy (trim content))); [done|].
    simpl. rewrite saveTabState_other by done. simpl. by rewrite abortCurrent_map.
  - unfold summarizePage. simpl. rewrite saveTabState_other by done.
    simpl. by rewrite abortCurrent_map.
  - unfold clearMessages. rewrite saveTabState_other by done.
    simpl. by rewrite abortCurrent_map.
  - unfold changeTab. destruct (decide (t = tabId s)); [done|].
    simpl. by rewrite abortCurrent_map.
  - unfold onChunk. destruct (requests s !! rid) as [r|]; [|done].
    by destruct (currentAborted s).
  - unfold onResolve. destruct (requests s !! rid) as [r|]; [|done].
    destruct (settled r); [done|].
    destruct (currentAborted _); [done|].
    simpl. by rewrite saveTabState_other.
  - unfold onReject. destruct (requests s !! rid) as [r|]; [|done].
    destruct (settled r); [done|].
    destruct (isAbortError err); [done|].
    simpl. by rewrite saveTabState_other.
Qed.

Lemma step_map_null (s : State) (e : Event) :
  boundTab s e = None -> tabChatStates (step s e) = tabChatStates s.
Proof.
  destruct e as [content pc st|pc st| |t|rid chunk|rid content st|rid err];
    simpl; intros H.
  - unfold sendMessage. destruct (negb (truthy (trim content))); [done|].
    rewrite H. simpl. apply abortCurrent_map.
  - unfold summarizePage. rewrite H. simpl. apply abortCurrent_map.
  - unfold clearMessages. rewrite H. simpl. apply abortCurrent_map.
  - unfold changeTab. destruct (decide (t = tabId s)); [done|].
    simpl. apply abortCurrent_map.
  - unfold onChunk. destruct (requests s !! rid) as [r|]; [|done].
    by destruct (currentAborted s).
  - unfold onResolve. destruct (requests s !! rid) as [r|]; [|done].
    destruct (settled r); [done|].
    destruct (currentAborted _); [done|].
    by rewrite H.
  - unfold onReject. destruct (requests s !! rid) as [r|]; [|done].
    destruct (settled r); [done|].
    destruct (isAbortError err); [done|].
    by rewrite H.
Qed.

(** The frame of the closures.  A step of an operation bound to tab [t]
    (a user operation of the hook rendered for [t], or a continuation of
    a provider call issued under [t]) leaves the record of every other
    tab [t'] as it was; a step bound to the null tab id leaves the whole
    map as it was.  The tab a continuation is bound to is the one its
    closure captured, which need not be the tab the hook shows when the
    continuation runs. *)
Theorem tab_isolation (s : State) (e : Event) :
  (forall t t', boundTab s e = Some t -> t' <> t ->
     tabChatStates (step s e) !! t' = tabChatStates s !! t') /\
  (boundTab s e = None -> tabChatStates (step s e) = tabChatStates s).
Proof.
  split.
  - intros t t' Hb Hne. apply step_map_other. rewrite Hb. congruence.
  - apply step_map_null.
Qed.

(** A continuation that arrives after the hook moved to tab 2 is bound to
    tab 1 and leaves the record of tab 2 alone; a hook without tab id
    writes nothing. *)
Lemma tab_isolation_witness :
  tabChatStates
    (step (run asked [TabChange (Some 2%Z)]) (Resolve 0 (lit "answer") stampB))
    !! 2%Z
  = tabChatStates (run asked [TabChange (Some 2%Z)]) !! 2%Z /\
  tabChatStates (step (mount ∅ None) (SendMessage (lit "hi") None stampA))
  = tabChatStates (mount ∅ None).
Proof.
  split.
  - apply (proj1 (tab_isolation _ _) 1%Z 2%Z); [reflexivity|lia].
  - apply (proj2 (tab_isolation _ _)). reflexivity.
Defined.

(** C1.  Per-tab conversation isolation, at the inputs where the code
    departs from the claim.  After [sendMessage('hi')] on tab 1 the hook
    is rendered with a null tab id, which aborts the token of the
    pending call; when that call resolves, the hook, bound to null,
    overwrites the record of tab 1 with the list it displays (empty)
    plus the answer.  Rendered with tab id 2 instead, the hook bound to
    tab 2 overwrites the record of tab 1 in the same way. *)
Theorem late_answer_crosses_tabs :
  tabId (run asked [TabChange None]) = None /\
  controllers (run asked [TabChange None]) !! 0 = Some true /\
  tabChatStates (run asked [TabChange None]) !! 1%Z
    = Some {| tab_messages := [newMessage stampA user (lit "hi")];
              tab_error := None |} /\
  tabChatStates
    (step (run asked [TabChange None]) (Resolve 0 (lit "answer") stampB)) !! 1%Z
    = Some {| tab_messages := [newMessage stampB assistant (lit "answer")];
              tab_error := None |} /\
  tabId (run asked [TabChange (Some 2%Z)]) = Some 2%Z /\
  tabChatStates
    (step (run asked [TabChange (Some 2%Z)]) (Resolve 0 (lit "answer") stampB))
    !! 1%Z
    = Some {| tab_messages := [newMessage stampB assistant (lit "answer")];
              tab_error := None |}.
Proof. repeat split; reflexivity. Qed.

(** ** Switching tabs *)

(** C8.  Tab multiplexing.  When a render receives another tab id [t],
    the displayed messages and error become the record stored for [t],
    or the empty record when [t] has no record or is null; the streaming
    content becomes the empty string and loading becomes false. *)
Theorem tab_change_loads_record (s : State) (t : option Z) :
  t <> tabId s ->
  (forall k st, t = Some k -> tabChatStates s !! k = Some st ->
     messages (step s (TabChange t)) = tab_messages st /\
     error (step s (TabChange t)) = tab_error st) /\
  (forall k, t = Some k -> tabChatStates s !! k = None ->
     messages (step s (TabChange t)) = [] /\
     error (step s (TabChange t)) = None) /\
  (t = None ->
     messages (step s (TabChange t)) = [] /\
     error (step s (TabChange t)) = None) /\
  streamingContent (step s (TabChange t)) = [] /\
  isLoading (step s (TabChange t)) = false /\
  tabId (step s (TabChange t)) = t.
Proof.
  intros Hne. simpl. unfold changeTab.
  destruct (decide (t = tabId s)) as [|_]; [done|].
  unfold tabEffect. simpl. rewrite abortCurrent_map.
  split; [|split; [|split]]; [| | |done].
  - intros k st -> Hk. simpl. by rewrite Hk.
  - intros k -> Hk. simpl. by rewrite Hk.
  - by intros ->.
Qed.

Lemma tab_change_loads_record_witness :
  messages (step asked (TabChange (Some 2%Z))) = [] /\
  error (step asked (TabChange (Some 2%Z))) = None /\
  messages (step (run asked [TabChange (Some 2%Z)]) (TabChange (Some 1%Z)))
  = [newMessage stampA user (lit "hi")] /\
  streamingContent (step asked (TabChange (Some 2%Z))) = [] /\
  isLoading (step asked (TabChange (Some 2%Z))) = false.
Proof.
  assert (H2 : Some 2%Z <> tabId asked) by (simpl; congruence).
  assert (H1 : Some 1%Z <> tabId (run asked [TabChange (Some 2%Z)]))
    by (simpl; congruence).
  destruct (tab_change_loads_record asked (Some 2%Z) H2)
    as (_ & Hnone & _ & Hs & Hl & _).
  destruct (tab_change_loads_record _ (Some 1%Z) H1) as (Hsome & _).
  destruct (Hnone 2%Z eq_refl eq_refl) as [Hm He].
  destruct (Hsome 1%Z
              {| tab_messages := [newMessage stampA user (lit "hi")];
                 tab_error := None |} eq_refl eq_refl) as [Hm' _].
  repeat split; assumption.
Defined.

(** ** Blank input *)

(** C9.  Blank-input no-op.  For an input that is empty or white space
    only, [sendMessage] returns the state it was given: the controllers
    (nothing is aborted), the pending provider calls (none is issued),
    the messages, error, loading flag, streaming content and the map are
    all unchanged. *)
Theorem blank_send_noop (s : State) (content : jsstring)
    (pageContext : option jsstring) (st : Stamp) :
  forallb isWhiteSpace content = true ->
  step s (SendMessage content pageContext st) = s.
Proof.
  intros H. simpl. unfold sendMessage. by rewrite (trim_blank _ H).
Qed.

Lemma blank_send_noop_witness :
  step asked (SendMessage [32%N; 9%N; 10%N; 12288%N] None stampB) = asked /\
  step asked (SendMessage [] None stampB) = asked.
Proof.
  split; apply blank_send_noop; reflexivity.
Defined.

(** ** Rejected provider calls *)

Lemma onReject_unfold (s : State) (rid : nat) (r : Request) (err : Thrown) :
  requests s !! rid = Some r -> settled r = false ->
  onReject rid err s =
    if isAbortError err then setIsLoading false (putRequest rid (settle r) s)
    else
      setIsLoading false
        (saveTabState (c_tabId r)
           (match call r with
            | ChatCall _ _ => c_messages r
            | SummarizeCall _ => []
            end)
           (Some (errorText (call r) err))
           (setError (Some (errorText (call r) err))
              (putRequest rid (settle r) s))).
Proof. intros Hr Hs. unfold onReject. by rewrite Hr, Hs. Qed.

Section SaveTabStateFields.
Variables (tab : option Z) (ms : list ChatMessage) (err : option jsstring)
          (s : State).

Lemma save_messages : messages (saveTabState tab ms err s) = messages s.
Proof. by destruct tab. Qed.
Lemma save_error : error (saveTabState tab ms err s) = error s.
Proof. by destruct tab. Qed.
Lemma save_streaming :
  streamingContent (saveTabState tab ms err s) = streamingContent s.
Proof. by destruct tab. Qed.
Lemma save_loading : isLoading (saveTabState tab ms err s) = isLoading s.
Proof. by destruct tab. Qed.
Lemma save_ref :
  abortControllerRef (saveTabState tab ms err s) = abortControllerRef s.
Proof. by destruct tab. Qed.
Lemma save_controllers :
  controllers (saveTabState tab ms err s) = controllers s.
Proof. by destruct tab. Qed.
Lemma save_requests : requests (saveTabState tab ms err s) = requests s.
Proof. by destruct tab. Qed.
Lemma save_tabId : tabId (saveTabState tab ms err s) = tabId s.
Proof. by destruct tab. Qed.
End SaveTabStateFields.

Create Rewrite HintDb chat_fields.
#[local] Hint Rewrite save_messages save_error save_streaming save_loading
  save_ref save_controllers save_requests save_tabId : chat_fields.

Ltac fields := simpl; autorewrite with chat_fields; simpl.

(** C5.  Error surfacing.  When the provider call of a pending invocation
    rejects with an [Error] whose name is not [AbortError], the error
    state becomes its message; when it rejects with a value that is not
    an [Error], the error state becomes the fallback text of the
    operation; in both cases loading becomes false.  A rejection with an
    [Error] named [AbortError] leaves the error state as it was, null in
    particular, and sets nothing but the loading flag. *)
Theorem error_surfacing (s : State) (rid : nat) (r : Request) :
  requests s !! rid = Some r ->
  settled r = false ->
  (forall name message,
     name <> abortErrorName ->
     error (step s (Reject rid (ThrownError name message))) = Some message /\
     isLoading (step s (Reject rid (ThrownError name message))) = false) /\
  (error (step s (Reject rid ThrownOther)) =
     Some (match call r with
           | ChatCall _ _ => chatFallback
           | SummarizeCall _ => summaryFallback
           end) /\
   isLoading (step s (Reject rid ThrownOther)) = false) /\
  (forall message,
     error (step s (Reject rid (ThrownError abortErrorName message))) = error s /\
     (error s = None ->
      error (step s (Reject rid (ThrownError abortErrorName message))) = None) /\
     messages (step s (Reject rid (ThrownError abortErrorName message)))
       = messages s /\
     streamingContent (step s (Reject rid (ThrownError abortErrorName message)))
       = streamingContent s /\
     tabChatStates (step s (Reject rid (ThrownError abortErrorName message)))
       = tabChatStates s).
Proof.
  intros Hr Hs. split; [|split].
  - intros name message Hname. simpl.
    rewrite (onReject_unfold _ _ _ _ Hr Hs). cbn [isAbortError].
    rewrite bool_decide_eq_false_2 by done. by fields.
  - simpl. rewrite (onReject_unfold _ _ _ _ Hr Hs). cbn [isAbortError].
    by fields.
  - intros message. simpl.
    rewrite (onReject_unfold _ _ _ _ Hr Hs). cbn [isAbortError].
    rewrite bool_decide_eq_true_2 by done. by fields.
Qed.

Lemma error_surfacing_witness :
  error (step asked (Reject 0 (ThrownError (lit "TypeError") (lit "Failed to fetch"))))
    = Some (lit "Failed to fetch") /\
  error (step asked (Reject 0 ThrownOther)) = Some chatFallback /\
  error (step asked (Reject 0 (ThrownError abortErrorName (lit "aborted")))) = None.
Proof.
  assert (Hr : exists r, requests asked !! 0 = Some r /\ settled r = false /\
                         call r = ChatCall [newMessage stampA user (lit "hi")] basePrompt)
    by (eexists; repeat split; reflexivity).
  destruct Hr as (r & Hr & Hs & Hc).
  destruct (error_surfacing asked 0 r Hr Hs) as (He & Ho & Ha).
  split; [|split].
  - apply He. discriminate.
  - destruct Ho as [Ho _]. rewrite Ho, Hc. reflexivity.
  - apply Ha. reflexivity.
Defined.

Lemma reachable_run (s : State) (es : list Event) :
  reachable s -> reachable (run s es).
Proof.
  revert s. induction es as [|e es IH]; intros s H; [done|].
  simpl. apply IH. by constructor.
Qed.

(** The claim of C6 as it is worded fails: in [summarizing] the hook
    displays the summary request, and after the provider call fails the
    record of tab 1 holds the empty list. *)
Lemma error_atomicity_counterexample :
  ~ (forall (s : State) (rid : nat) (r : Request) (err : Thrown) (t : Z),
        reachable s ->
        requests s !! rid = Some r -> settled r = false ->
        isAbortError err = false ->
        tabId s = Some t ->
        tab_messages <$> (tabChatStates (step s (Reject rid err)) !! t)
        = Some (messages s)).
Proof.
  intros H.
  assert (Hr : exists r, requests summarizing !! 0 = Some r /\ settled r = false)
    by (eexists; split; reflexivity).
  destruct Hr as (r & Hr & Hs).
  specialize (H summarizing 0 r (ThrownError (lit "Error") (lit "boom")) 1%Z
                (reachable_run _ _ (reachable_mount _ _)) Hr Hs
                eq_refl eq_refl).
  vm_compute in H. discriminate H.
Qed.

(** C6, amended.  A failed request, rejected with anything but an abort
    error, leaves the displayed messages, the streaming content and the
    controllers as they were, sets the displayed error to the error text
    and loading to false, and writes the error text into the record of
    the tab the request was issued under; the records of all other tabs
    are unchanged.  The message list of that record is overwritten, not
    kept equal to the displayed list: after a failed [summarizePage] it
    is the empty list. *)
Theorem failure_surfaces_error (s : State) (rid : nat) (r : Request)
    (err : Thrown) :
  requests s !! rid = Some r ->
  settled r = false ->
  isAbortError err = false ->
  messages (step s (Reject rid err)) = messages s /\
  streamingContent (step s (Reject rid err)) = streamingContent s /\
  controllers (step s (Reject rid err)) = controllers s /\
  abortControllerRef (step s (Reject rid err)) = abortControllerRef s /\
  error (step s (Reject rid err)) = Some (errorText (call r) err) /\
  isLoading (step s (Reject rid err)) = false /\
  (forall t, c_tabId r = Some t ->
     tab_error <$> tabChatStates (step s (Reject rid err)) !! t =
       Some (Some (errorText (call r) err))) /\
  (forall t pageContent,
     c_tabId r = Some t -> call r = SummarizeCall pageContent ->
     tab_messages <$> tabChatStates (step s (Reject rid err)) !! t = Some []) /\
  (forall t', c_tabId r <> Some t' ->
     tabChatStates (step s (Reject rid err)) !! t' = tabChatStates s !! t').
Proof.
  intros Hr Hs Ha. simpl.
  rewrite (onReject_unfold _ _ _ _ Hr Hs), Ha.
  repeat split; try (by fields).
  - intros t Ht. rewrite Ht. simpl. by rewrite lookup_insert_eq.
  - intros t pc Ht Hc. rewrite Ht, Hc. simpl. by rewrite lookup_insert_eq.
  - intros t' Ht'. simpl. by rewrite saveTabState_other.
Qed.

Lemma failure_surfaces_error_witness :
  messages (step summarizing (Reject 0 (ThrownError (lit "Error") (lit "boom"))))
    = [newMessage stampA user summaryRequest] /\
  error (step summarizing (Reject 0 (ThrownError (lit "Error") (lit "boom"))))
    = Some (lit "boom") /\
  tab_messages <$>
    tabChatStates
      (step summarizing (Reject 0 (ThrownError (lit "Error") (lit "boom"))))
      !! 1%Z
    = Some [].
Proof.
  assert (Hr : exists r, requests summarizing !! 0 = Some r /\
                         settled r = false /\ c_tabId r = Some 1%Z /\
                         call r = SummarizeCall (lit "page text"))
    by (eexists; repeat split; reflexivity).
  destruct Hr as (r & Hr & Hs & Ht & Hc).
  destruct (failure_surfaces_error summarizing 0 r
              (ThrownError (lit "Error") (lit "boom")) Hr Hs eq_refl)
    as (Hmsg & _ & _ & _ & Herr & _ & _ & Hmap & _).
  split; [|split].
  - rewrite Hmsg. reflexivity.
  - rewrite Herr. reflexivity.
  - exact (Hmap 1%Z (lit "page text") Ht Hc).
Defined.

(** [sendMessage] captures the messages displayed when it is called, and
    its [catch] block saves that list: the record then lacks the pending
    user message that the display still shows. *)
Lemma sendMessage_captures (s : State) content pageContext st :
  truthy (trim content) = true ->
  requests (sendMessage content pageContext st s) =
    requests (abortCurrent s) ++
    [ {| call := ChatCall (messages s ++ [newMessage st user (trim content)])
                   (systemPromptOf pageContext);
         c_tabId := tabId s; c_error := error s; c_messages := messages s;
         fullContent := []; settled := false;
         token := length (controllers s) |} ].
Proof.
  intros H. unfold sendMessage. rewrite H. by fields.
Qed.

Lemma chat_failure_saves_captured (s : State) (rid : nat) (r : Request)
    (err : Thrown) (t : Z) cm sp :
  requests s !! rid = Some r ->
  settled r = false ->
  isAbortError err = false ->
  c_tabId r = Some t ->
  call r = ChatCall cm sp ->
  tabChatStates (step s (Reject rid err)) !! t =
    Some {| tab_messages := c_messages r;
            tab_error := Some (errorText (call r) err) |}.
Proof.
  intros Hr Hs Ha Ht Hc. simpl.
  rewrite (onReject_unfold _ _ _ _ Hr Hs), Ha, Ht, Hc.
  simpl. by rewrite lookup_insert_eq.
Qed.

(** ** Cancellation tokens *)

Lemma abortCurrent_ref (s : State) :
  abortControllerRef (abortCurrent s) = abortControllerRef s.
Proof.
  unfold abortCurrent. by destruct (abortControllerRef s) eqn:E.
Qed.

(** After [abort()] on the current controller no token is left live. *)
Lemma abortCurrent_controllers (s : State) :
  tokensOk s ->
  controllers (abortCurrent s) = replicate (length (controllers s)) true.
Proof.
  intros [Hlive Hcur]. apply list_eq. intros i.
  destruct (decide (i < length (controllers s))) as [Hi|Hi].
  - rewrite lookup_replicate_2 by done.
    unfold abortCurrent.
    destruct (abortControllerRef s) as [k|] eqn:Ek; simpl.
    + destruct (decide (k = i)) as [->|Hk].
      * by apply list_lookup_insert_eq.
      * rewrite list_lookup_insert_ne by done.
        destruct (lookup_lt_is_Some_2 _ _ Hi) as [[] Hb]; [done|].
        apply Hlive in Hb. congruence.
    + destruct (lookup_lt_is_Some_2 _ _ Hi) as [[] Hb]; [done|].
      apply Hlive in Hb. congruence.
  - assert (length (controllers s) <= i) as Hge by lia.
    rewrite (proj1 (lookup_replicate_None _ _ _) Hge).
    apply lookup_ge_None_2.
    unfold abortCurrent. destruct (abortControllerRef s); simpl; [|done].
    by rewrite length_insert.
Qed.

Lemma continuation_tokens (s : State) (e : Event) :
  cancels s e = false ->
  controllers (step s e) = controllers s /\
  abortControllerRef (step s e) = abortControllerRef s.
Proof.
  destruct e as [content pc st|pc st| |t|rid chunk|rid content st|rid err];
    simpl; intros H; try done.
  - unfold sendMessage. by rewrite H.
  - unfold changeTab. destruct (decide (t = tabId s)); [done|].
    by rewrite bool_decide_eq_true_2 in H.
  - unfold onChunk. destruct (requests s !! rid); [|done].
    by destruct (currentAborted s).
  - unfold onResolve. destruct (requests s !! rid) as [r|]; [|done].
    destruct (settled r); [done|].
    destruct (currentAborted _); [done|]. by fields.
  - unfold onReject. destruct (requests s !! rid) as [r|]; [|done].
    destruct (settled r); [done|].
    destruct (isAbortError err); [done|]. by fields.
Qed.

(** What a cancelling event does to the controllers: all tokens created
    so far are aborted, and [sendMessage] and [summarizePage] then create
    one fresh token, which becomes the current one. *)
Lemma cancelling_tokens (s : State) (e : Event) :
  tokensOk s ->
  cancels s e = true ->
  controllers (step s e) =
    replicate (length (controllers s)) true
      ++ (if creates s e then [false] else []) /\
  abortControllerRef (step s e) =
    if creates s e then Some (length (controllers s)) else None.
Proof.
  intros Hok.
  destruct e as [content pc st|pc st| |t|rid chunk|rid content st|rid err];
    simpl; intros H; try done.
  - unfold sendMessage. rewrite H. fields.
    by rewrite abortCurrent_controllers, length_replicate.
  - unfold summarizePage. fields.
    by rewrite abortCurrent_controllers, length_replicate.
  - unfold clearMessages. fields.
    by rewrite abortCurrent_controllers, app_nil_r.
  - unfold changeTab. destruct (decide (t = tabId s)) as [->|_].
    + by rewrite bool_decide_eq_false_2 in H by tauto.
    + simpl. by rewrite abortCurrent_controllers, app_nil_r.
Qed.

Lemma tokensOk_mount m t : tokensOk (mount m t).
Proof. split; intros i H; simpl in *; [by destruct i|done]. Qed.

Lemma tokensOk_step (s : State) (e : Event) :
  tokensOk s -> tokensOk (step s e).
Proof.
  intros Hok. destruct (cancels s e) eqn:Hc.
  - destruct (cancelling_tokens s e Hok Hc) as [Hcs Href].
    unfold tokensOk, live. rewrite Hcs, Href.
    split; intros i Hi.
    + destruct (decide (i < length (controllers s))) as [Hlt|Hge].
      * rewrite lookup_app_l in Hi by (by rewrite length_replicate).
        rewrite lookup_replicate_2 in Hi by done. done.
      * rewrite lookup_app_r in Hi by (rewrite length_replicate; lia).
        rewrite length_replicate in Hi.
        destruct (creates s e); [|by destruct (i - length (controllers s))].
        destruct (i - length (controllers s)) as [|[|k]] eqn:Ei; try done.
        f_equal. lia.
    + destruct (creates s e); [|done]. injection Hi as <-.
      rewrite lookup_app_r by (by rewrite length_replicate).
      by rewrite length_replicate, Nat.sub_diag.
  - destruct (continuation_tokens s e Hc) as [Hcs Href].
    unfold tokensOk. rewrite Hcs, Href. exact Hok.
Qed.

Lemma reachable_tokensOk (s : State) : reachable s -> tokensOk s.
Proof.
  induction 1 as [m t|s e _ IH]; [apply tokensOk_mount|by apply tokensOk_step].
Qed.

(** The claim of C2 as it is worded fails at a [sendMessage] with blank
    input: in [asked] the token of the pending request is live, and it
    still is after [sendMessage('  ')]. *)
Lemma single_token_counterexample :
  ~ (forall (s : State) (e : Event) (i : nat),
        reachable s -> begins s e = true ->
        i < length (controllers s) ->
        controllers (step s e) !! i = Some true).
Proof.
  intros H.
  specialize (H asked (SendMessage [32%N; 32%N] None stampB) 0
                (reachable_run _ _ (reachable_mount _ _)) eq_refl).
  assert (Hl : 0 < length (controllers asked)) by (simpl; lia).
  specialize (H Hl). vm_compute in H. discriminate H.
Qed.

(** C2, amended.  In every reachable state at most one cancellation
    token is not aborted.  Whenever [sendMessage] begins with an input
    that is not blank, [summarizePage] begins, [clearMessages] runs or
    the bound tab id changes, every token created before is aborted, and
    after that [sendMessage] and [summarizePage] create one new token
    while the other two create none.  A [sendMessage] with blank input
    leaves the tokens as they are. *)
Theorem single_token (s : State) :
  reachable s ->
  (forall i j, live (controllers s) i -> live (controllers s) j -> i = j) /\
  (forall e, cancels s e = true ->
     (forall i, i < length (controllers s) ->
        controllers (step s e) !! i = Some true) /\
     controllers (step s e) =
       replicate (length (controllers s)) true
         ++ (if creates s e then [false] else [])) /\
  (forall content pageContext st,
     truthy (trim content) = false ->
     controllers (step s (SendMessage content pageContext st)) = controllers s).
Proof.
  intros Hr. pose proof (reachable_tokensOk s Hr) as Hok.
  split; [|split].
  - intros i j Hi Hj. destruct Hok as [Hlive _].
    apply Hlive in Hi. apply Hlive in Hj. congruence.
  - intros e Hc. destruct (cancelling_tokens s e Hok Hc) as [Hcs _].
    split; [|done]. intros i Hi. rewrite Hcs.
    rewrite lookup_app_l by (by rewrite length_replicate).
    by apply lookup_replicate_2.
  - intros content pc st Hb.
    apply (continuation_tokens s (SendMessage content pc st)). exact Hb.
Qed.

Lemma single_token_witness :
  controllers (step asked (SendMessage (lit "more") None stampB))
    = [true; false] /\
  controllers (step asked ClearMessages) = [true].
Proof.
  destruct (single_token asked (reachable_run _ _ (reachable_mount _ _)))
    as (_ & H & _).
  split.
  - exact (proj2 (H (SendMessage (lit "more") None stampB) eq_refl)).
  - exact (proj2 (H ClearMessages eq_refl)).
Defined.

(** ** The guards of the continuations *)

(** Between two events the ref holds no aborted controller, so the test
    [abortControllerRef.current?.signal.aborted] is false whenever a
    continuation runs it. *)
Lemma guard_never_holds (s : State) : reachable s -> currentAborted s = false.
Proof.
  intros Hr. destruct (reachable_tokensOk s Hr) as [_ Hcur].
  unfold currentAborted.
  destruct (abortControllerRef s) as [i|]; [|done].
  by rewrite (Hcur i eq_refl).
Qed.

Lemma abortCurrent_requests (s : State) :
  requests (abortCurrent s) = requests s.
Proof. unfold abortCurrent. by destruct (abortControllerRef s). Qed.

(** Every chunk is appended to the accumulator of its invocation and
    shown, whether or not the token of the invocation was aborted. *)
Lemma chunk_applied (s : State) (rid : nat) (r : Request) (chunk : jsstring) :
  reachable s ->
  requests s !! rid = Some r ->
  streamingContent (step s (Chunk rid chunk)) = fullContent r ++ chunk /\
  requests (step s (Chunk rid chunk)) !! rid =
    Some (setFullContent (fullContent r ++ chunk) r).
Proof.
  intros Hr Hrid. simpl. unfold onChunk.
  rewrite Hrid, (guard_never_holds s Hr). simpl. split; [done|].
  apply list_lookup_insert_eq. by eapply lookup_lt_Some.
Qed.

(** Every resolution appends the assistant message, whether or not the
    token of the invocation was aborted. *)
Lemma resolve_applied (s : State) (rid : nat) (r : Request)
    (content : jsstring) (st : Stamp) :
  reachable s ->
  requests s !! rid = Some r ->
  settled r = false ->
  messages (step s (Resolve rid content st)) =
    messages s ++
    [newMessage st assistant (if truthy content then content else fullContent r)].
Proof.
  intros Hr Hrid Hs. simpl. unfold onResolve. rewrite Hrid, Hs.
  assert (Hg : currentAborted (putRequest rid (settle r) s) = false)
    by apply (guard_never_holds s Hr).
  rewrite Hg. by fields.
Qed.

Lemma chunksOf_app (rid : nat) (es es' : list Event) :
  chunksOf rid (es ++ es') = chunksOf rid es ++ chunksOf rid es'.
Proof.
  induction es as [|e es IH]; [done|].
  destruct e as [| | | |rid' c| |]; simpl; try done.
  destruct (decide (rid' = rid)); simpl; by rewrite IH.
Qed.

(** A pending invocation keeps its slot; only its accumulator and its
    [settled] flag change. *)
Lemma request_step (s : State) (e : Event) (rid : nat) (r : Request) :
  reachable s ->
  requests s !! rid = Some r ->
  exists r',
    requests (step s e) !! rid = Some r' /\
    fullContent r' = fullContent r ++ concat (chunksOf rid [e]) /\
    token r' = token r /\ c_tabId r' = c_tabId r.
Proof.
  intros Hr Hrid.
  pose proof (lookup_lt_Some _ _ _ Hrid) as Hlt.
  destruct e as [content pc st|pc st| |t|rid' chunk|rid' content st|rid' err];
    simpl.
  - exists r. rewrite app_nil_r. repeat split; try done.
    unfold sendMessage. destruct (negb (truthy (trim content))); [done|].
    fields. rewrite abortCurrent_requests. by rewrite lookup_app_l.
  - exists r. rewrite app_nil_r. repeat split; try done.
    unfold summarizePage. fields.
    rewrite abortCurrent_requests. by rewrite lookup_app_l.
  - exists r. rewrite app_nil_r. repeat split; try done.
    unfold clearMessages. fields. by rewrite abortCurrent_requests.
  - exists r. rewrite app_nil_r. repeat split; try done.
    unfold changeTab. destruct (decide (t = tabId s)); [done|].
    simpl. by rewrite abortCurrent_requests.
  - unfold onChunk. rewrite (guard_never_holds s Hr).
    destruct (decide (rid' = rid)) as [->|Hne].
    + rewrite Hrid. simpl. eexists. split.
      * by apply list_lookup_insert_eq.
      * simpl. by rewrite app_nil_r.
    + exists r. rewrite app_nil_r. repeat split; try done.
      destruct (requests s !! rid') as [r0|]; [|done].
      simpl. by rewrite list_lookup_insert_ne.
  - unfold onResolve.
    destruct (decide (rid' = rid)) as [->|Hne].
    + rewrite Hrid. destruct (settled r) eqn:Hs.
      * exists r. by rewrite app_nil_r.
      * exists (settle r). rewrite app_nil_r. repeat split; try done.
        destruct (currentAborted _); fields;
          by apply list_lookup_insert_eq.
    + exists r. rewrite app_nil_r. repeat split; try done.
      destruct (requests s !! rid') as [r0|]; [|done].
      destruct (settled r0); [done|].
      destruct (currentAborted _); fields;
        by rewrite list_lookup_insert_ne.
  - unfold onReject.
    destruct (decide (rid' = rid)) as [->|Hne].
    + rewrite Hrid. destruct (settled r) eqn:Hs.
      * exists r. by rewrite app_nil_r.
      * exists (settle r). rewrite app_nil_r. repeat split; try done.
        destruct (isAbortError err); fields;
          by apply list_lookup_insert_eq.
    + exists r. rewrite app_nil_r. repeat split; try done.
      destruct (requests s !! rid') as [r0|]; [|done].
      destruct (settled r0); [done|].
      destruct (isAbortError err); fields;
        by rewrite list_lookup_insert_ne.
Qed.

Lemma request_run (s : State) (es : list Event) (rid : nat) (r : Request) :
  reachable s ->
  requests s !! rid = Some r ->
  exists r',
    requests (run s es) !! rid = Some r' /\
    fullContent r' = fullContent r ++ concat (chunksOf rid es) /\
    token r' = token r /\ c_tabId r' = c_tabId r.
Proof.
  revert s r. induction es as [|e es IH]; intros s r Hr Hrid.
  - exists r. simpl. by rewrite app_nil_r.
  - destruct (request_step s e rid r Hr Hrid) as (r1 & H1 & Hf1 & Ht1 & Hc1).
    destruct (IH (step s e) r1 (reachable_step _ _ Hr) H1)
      as (r2 & H2 & Hf2 & Ht2 & Hc2).
    exists r2. split; [exact H2|]. split; [|split; congruence].
    rewrite Hf2, Hf1.
    change (e :: es) with ([e] ++ es).
    by rewrite chunksOf_app, concat_app, app_assoc.
Qed.

(** The first half of C3, for every invocation: right after the k-th
    chunk callback of an invocation that started with an empty
    accumulator, the streaming content is the concatenation of its
    chunks 1 to k in arrival order, whatever happened in between. *)
Lemma streaming_accumulates (s : State) (rid : nat) (r : Request)
    (es : list Event) (chunk : jsstring) :
  reachable s ->
  requests s !! rid = Some r ->
  fullContent r = [] ->
  streamingContent (run s (es ++ [Chunk rid chunk])) =
    concat (chunksOf rid (es ++ [Chunk rid chunk])).
Proof.
  intros Hr Hrid Hf.
  destruct (request_run s es rid r Hr Hrid) as (r' & Hr' & Hf' & _).
  unfold run. rewrite fold_left_app. fold (run s es). cbn [fold_left].
  destruct (chunk_applied (run s es) rid r' chunk
              (reachable_run _ _ Hr) Hr') as [-> _].
  rewrite Hf', Hf, chunksOf_app, concat_app. simpl.
  destruct (decide (rid = rid)); [|done]. simpl. by rewrite app_nil_r.
Qed.

(** C3.  Streaming accumulation, at the input where the code departs from
    the claim.  In [askedThenCleared] the token of invocation 0 is
    aborted and the streaming content is empty; a chunk delivered to
    invocation 0 afterwards is not discarded: the accumulator and the
    streaming content both become the chunk.  In [askedTwice] a chunk of
    the abandoned invocation 0 replaces the streaming content of the
    newer invocation 1. *)
Theorem late_chunk_is_applied :
  token <$> requests askedThenCleared !! 0 = Some 0 /\
  controllers askedThenCleared !! 0 = Some true /\
  streamingContent askedThenCleared = [] /\
  streamingContent (step askedThenCleared (Chunk 0 (lit "late"))) = lit "late" /\
  fullContent <$> requests (step askedThenCleared (Chunk 0 (lit "late"))) !! 0
    = Some (lit "late") /\
  controllers askedTwice = [true; false] /\
  streamingContent
    (run askedTwice [Chunk 1 (lit "new"); Chunk 0 (lit "old")]) = lit "old".
Proof. repeat split; reflexivity. Qed.

(** C4.  Abandoned-request guard, at the input where the code departs
    from the claim.  In [askedThenCleared] the token of invocation 0 is
    aborted and the conversation is empty; when the provider call of
    invocation 0 resolves afterwards, its assistant message is appended
    to the displayed messages and saved in the record of tab 1. *)
Theorem late_response_is_applied :
  token <$> requests askedThenCleared !! 0 = Some 0 /\
  controllers askedThenCleared !! 0 = Some true /\
  messages askedThenCleared = [] /\
  messages (step askedThenCleared (Resolve 0 (lit "answer") stampB))
    = [newMessage stampB assistant (lit "answer")] /\
  tabChatStates (step askedThenCleared (Resolve 0 (lit "answer") stampB)) !! 1%Z
    = Some {| tab_messages := [newMessage stampB assistant (lit "answer")];
              tab_error := None |}.
Proof. repeat split; reflexivity. Qed.

(** ** Message ids *)

Lemma lit_cons (c : ascii) (t : string) :
  lit (String c t) = N_of_ascii c :: lit t.
Proof. reflexivity. Qed.

Lemma lit_inj (a b : string) : lit a = lit b -> a = b.
Proof.
  revert b. induction a as [|c a IH]; intros [|d b] H; try done.
  rewrite !lit_cons in H. injection H as Hc Ht.
  apply (f_equal ascii_of_N) in Hc. rewrite !ascii_N_embedding in Hc.
  f_equal; [done|by apply IH].
Qed.

Lemma decimal_no_dash (n : N) : Forall (fun c => c <> 45%N) (decimal n).
Proof.
  unfold decimal. induction (N.to_uint n) as [|d IH|d IH|d IH|d IH|d IH
                                              |d IH|d IH|d IH|d IH|d IH];
    simpl NilEmpty.string_of_uint; [constructor|..];
    rewrite lit_cons; (constructor; [by vm_compute|exact IH]).
Qed.

Lemma decimal_inj (n n' : N) : decimal n = decimal n' -> n = n'.
Proof.
  intros H. apply lit_inj in H.
  apply DecimalN.Unsigned.to_uint_inj.
  apply (f_equal NilEmpty.uint_of_string) in H.
  rewrite !NilEmpty.usu in H. by injection H.
Qed.

(** Two texts without the separator, each followed by the separator,
    agree only if both parts agree. *)
Lemma split_at_separator (x : N) (a b s1 s2 : jsstring) :
  Forall (fun c => c <> x) a ->
  Forall (fun c => c <> x) b ->
  a ++ x :: s1 = b ++ x :: s2 ->
  a = b /\ s1 = s2.
Proof.
  intros Ha. revert b. induction Ha as [|c a Hc Ha IH]; intros b Hb H.
  - destruct Hb as [|d b Hd Hb]; simpl in H.
    + by injection H.
    + injection H as H _. congruence.
  - destruct Hb as [|d b Hd Hb]; simpl in H.
    + injection H as H _. congruence.
    + injection H as -> H. destruct (IH b Hb H) as [-> ->]. done.
Qed.

(** The claim of C7 as it is worded fails: [generateId] reads the clock
    and a random number, and two messages created in the same
    millisecond with equal random draws get the same id, as the two user
    messages of [askedTwice] do. *)
Lemma id_uniqueness_counterexample :
  ~ (forall (s : State) (i j : nat) (m1 m2 : ChatMessage),
        reachable s ->
        messages s !! i = Some m1 -> messages s !! j = Some m2 ->
        i <> j -> m_id m1 <> m_id m2).
Proof.
  intros H.
  refine (H askedTwice 0 1 _ _ (reachable_run _ _ (reachable_mount _ _))
            eq_refl eq_refl _ eq_refl).
  lia.
Qed.

(** C7, amended.  Two ids produced by [generateId] are equal exactly when
    the two calls read the same clock value and random numbers whose
    base-36 texts have the same characters 2 to 8; ids of messages
    created at different clock values, or with different random
    suffixes, differ. *)
Theorem generateId_injective (now1 now2 : N) (r1 r2 : jsstring) :
  generateId now1 r1 = generateId now2 r2 <->
  now1 = now2 /\ slice 2 9 r1 = slice 2 9 r2.
Proof.
  split.
  - unfold generateId. change (lit "-") with [45%N]. simpl.
    intros H.
    apply split_at_separator in H as [Hn Hs]; try apply decimal_no_dash.
    split; [by apply decimal_inj|done].
  - intros [-> Hs]. unfold generateId. by rewrite Hs.
Qed.

End UseChatSpec.

(** ** Further properties of the hook *)

Module UseChatMore.

Import UseChat Session JsFacts UseChatSpec.
Local Open Scope nat_scope.

#[local] Hint Rewrite save_messages save_error save_streaming save_loading
  save_ref save_controllers save_requests save_tabId : chat_fields.

Lemma creates_cancels (s : State) (e : Event) :
  creates s e = true -> cancels s e = true.
Proof. by destruct e. Qed.

(** Only a [sendMessage] that passes its guard and [summarizePage] issue
    a provider call; no step removes one. *)
Lemma requests_length_step (s : State) (e : Event) :
  length (requests (step s e)) =
    length (requests s) + (if creates s e then 1 else 0).
Proof.
  destruct e as [content pc st|pc st| |t|rid chunk|rid content st|rid err];
    simpl.
  - unfold sendMessage. destruct (truthy (trim content)); simpl; [|lia].
    fields. by rewrite abortCurrent_requests, length_app.
  - unfold summarizePage. fields.
    by rewrite abortCurrent_requests, length_app.
  - unfold clearMessages. fields. rewrite abortCurrent_requests. lia.
  - unfold changeTab. destruct (decide (t = tabId s)); [lia|].
    simpl. rewrite abortCurrent_requests. lia.
  - unfold onChunk. destruct (requests s !! rid); [|lia].
    destruct (currentAborted s); [lia|]. simpl. rewrite length_insert. lia.
  - unfold onResolve. destruct (requests s !! rid) as [r|]; [|lia].
    destruct (settled r); [lia|].
    destruct (currentAborted _); fields; rewrite length_insert; lia.
  - unfold onReject. destruct (requests s !! rid) as [r|]; [|lia].
    destruct (settled r); [lia|].
    destruct (isAbortError err); fields; rewrite length_insert; lia.
Qed.

Lemma controllers_length_step (s : State) (e : Event) :
  tokensOk s ->
  length (controllers (step s e)) =
    length (controllers s) + (if creates s e then 1 else 0).
Proof.
  intros Hok. destruct (cancels s e) eqn:Hc.
  - destruct (cancelling_tokens s e Hok Hc) as [-> _].
    rewrite length_app, length_replicate. by destruct (creates s e).
  - destruct (continuation_tokens s e Hc) as [-> _].
    destruct (creates s e) eqn:Hcr; [|lia].
    apply creates_cancels in Hcr. congruence.
Qed.

(** The invocation issued by a creating event: it takes the next slot,
    starts with an empty accumulator, and records the next controller. *)
Lemma created_request (s : State) (e : Event) :
  creates s e = true ->
  exists r,
    requests (step s e) !! length (requests s) = Some r /\
    fullContent r = [] /\ settled r = false /\
    c_tabId r = tabId s /\ c_error r = error s /\
    token r = length (controllers s).
Proof.
  destruct e as [content pc st|pc st| |t|rid chunk|rid content st|rid err];
    simpl; intros H; try done.
  - unfold sendMessage. rewrite H. simpl. eexists. split.
    + fields. rewrite abortCurrent_requests.
      rewrite lookup_app_r by lia. by rewrite Nat.sub_diag.
    + done.
  - unfold summarizePage. eexists. split.
    + fields. rewrite abortCurrent_requests.
      rewrite lookup_app_r by lia. by rewrite Nat.sub_diag.
    + done.
Qed.

Lemma callsOk_mount m t : callsOk (mount m t).
Proof. repeat split; intros; simpl in *; done. Qed.

Lemma callsOk_step (s : State) (e : Event) :
  reachable s -> callsOk s -> callsOk (step s e).
Proof.
  intros Hr (Hlen & Htok & Href).
  pose proof (reachable_tokensOk s Hr) as Hok.
  split; [|split].
  - rewrite requests_length_step, controllers_length_step by done. lia.
  - intros rid r' Hrid.
    destruct (decide (rid < length (requests s))) as [Hlt|Hge].
    + destruct (lookup_lt_is_Some_2 _ _ Hlt) as [r Hr0].
      destruct (request_step s e rid r Hr Hr0) as (r1 & H1 & _ & Ht & _).
      rewrite Hrid in H1. injection H1 as <-. rewrite Ht. by eapply Htok.
    + pose proof (lookup_lt_Some _ _ _ Hrid) as Hlt'.
      rewrite requests_length_step in Hlt'.
      destruct (creates s e) eqn:Hc; [|lia].
      assert (rid = length (requests s)) as -> by lia.
      destruct (created_request s e Hc) as (r & H1 & _ & _ & _ & _ & Ht).
      rewrite Hrid in H1. injection H1 as <-. lia.
  - intros i Hi. rewrite controllers_length_step by done.
    destruct (cancels s e) eqn:Hc.
    + destruct (cancelling_tokens s e Hok Hc) as [_ Hr'].
      rewrite Hr' in Hi. destruct (creates s e); [|done].
      injection Hi as <-. lia.
    + destruct (continuation_tokens s e Hc) as [_ Hr'].
      rewrite Hr' in Hi. apply Href in Hi.
      destruct (creates s e) eqn:Hcr; [|lia].
      apply creates_cancels in Hcr. congruence.
Qed.

Lemma reachable_callsOk (s : State) : reachable s -> callsOk s.
Proof.
  induction 1 as [m t|s e Hr IH]; [apply callsOk_mount|by apply callsOk_step].
Qed.

(** X1.  In every reachable state the ref is null or holds a controller
    that is not aborted.  The cancellation test of the chunk handler and
    of the continuation after [await] is therefore false whenever it
    runs: every chunk delivered to a known invocation is appended to its
    accumulator and displayed. *)
Theorem guards_never_fire (s : State) :
  reachable s ->
  currentAborted s = false /\
  (forall i, abortControllerRef s = Some i -> controllers s !! i = Some false) /\
  (forall rid r chunk,
     requests s !! rid = Some r ->
     streamingContent (step s (Chunk rid chunk)) = fullContent r ++ chunk).
Proof.
  intros Hr. split; [by apply guard_never_holds|]. split.
  - intros i Hi. by apply (reachable_tokensOk s Hr).
  - intros rid r chunk Hrid. by apply chunk_applied.
Qed.

Lemma guards_never_fire_witness :
  currentAborted askedTwice = false /\
  streamingContent (step askedTwice (Chunk 0 (lit "old"))) = lit "old".
Proof.
  destruct (guards_never_fire askedTwice
              (reachable_run _ _ (reachable_mount _ _))) as (Hg & _ & Hc).
  split; [exact Hg|].
  assert (Hr : exists r, requests askedTwice !! 0 = Some r /\ fullContent r = [])
    by (eexists; split; reflexivity).
  destruct Hr as (r & Hr & Hf).
  rewrite (Hc 0 r (lit "old") Hr), Hf. reflexivity.
Defined.

(** X2.  In every state reachable from a mount, provider calls and
    controllers are created together: there are as many of one as of the
    other, the call in slot [rid] created controller [rid], and a call
    whose controller is not aborted is the most recent call, its
    controller being the one in the ref. *)
Theorem one_call_per_token (s : State) :
  reachable s ->
  length (requests s) = length (controllers s) /\
  (forall rid r, requests s !! rid = Some r -> token r = rid) /\
  (forall rid r,
     requests s !! rid = Some r ->
     live (controllers s) (token r) ->
     latest s = Some r /\ abortControllerRef s = Some (token r)).
Proof.
  intros Hr. destruct (reachable_callsOk s Hr) as (Hlen & Htok & Href).
  destruct (reachable_tokensOk s Hr) as [Hlive _].
  split; [done|]. split; [done|].
  intros rid r Hrid Hl. pose proof (Htok _ _ Hrid) as Ht.
  pose proof (Hlive _ Hl) as Hcur. split; [|done].
  apply Href in Hcur. unfold latest. rewrite last_lookup.
  replace (pred (length (requests s))) with rid by lia. done.
Qed.

Lemma one_call_per_token_witness :
  length (requests askedTwice) = length (controllers askedTwice) /\
  token <$> latest askedTwice = Some 1.
Proof.
  destruct (one_call_per_token askedTwice
              (reachable_run _ _ (reachable_mount _ _))) as (Hlen & _ & Hl).
  split; [exact Hlen|].
  assert (Hr : exists r, requests askedTwice !! 1 = Some r /\ token r = 1)
    by (eexists; split; reflexivity).
  destruct Hr as (r & Hr & Ht).
  assert (Hlive : live (controllers askedTwice) (token r))
    by (rewrite Ht; reflexivity).
  destruct (Hl 1 r Hr Hlive) as [-> _]. simpl. by rewrite Ht.
Defined.

Lemma settle_sets_loading_false (s : State) (e : Event) :
  match e with Resolve _ _ _ | Reject _ _ => True | _ => False end ->
  step s e = s \/ isLoading (step s e) = false.
Proof.
  destruct e as [content pc st|pc st| |t|rid chunk|rid content st|rid err];
    simpl; try done; intros _.
  - unfold onResolve. destruct (requests s !! rid) as [r|]; [|by left].
    destruct (settled r); [by left|]. right.
    by destruct (currentAborted _); fields.
  - unfold onReject. destruct (requests s !! rid) as [r|]; [|by left].
    destruct (settled r); [by left|]. right.
    by destruct (isAbortError err); fields.
Qed.

(** X3.  The loading flag is on only while the most recent provider call
    is pending and its controller is the one in the ref: whenever
    [isLoading] is true, the latest invocation exists, has not settled,
    and owns the current controller. *)
Theorem loading_means_latest_pending (s : State) :
  reachable s ->
  isLoading s = true ->
  exists r, latest s = Some r /\ settled r = false /\
            abortControllerRef s = Some (token r).
Proof.
  induction 1 as [m t|s e Hr IH]; [done|].
  pose proof (reachable_tokensOk s Hr) as Hok.
  destruct (creates s e) eqn:Hc.
  - intros _. destruct (created_request s e Hc) as (r & H1 & _ & Hs & _ & _ & Ht).
    exists r. split; [|split; [done|]].
    + unfold latest. rewrite last_lookup, requests_length_step, Hc.
      replace (pred (length (requests s) + 1)) with (length (requests s)) by lia.
      done.
    + destruct (cancelling_tokens s e Hok (creates_cancels _ _ Hc)) as [_ ->].
      by rewrite Hc, Ht.
  - destruct e as [content pc st|pc st| |t|rid chunk|rid content st|rid err].
    + simpl in *. unfold sendMessage. by rewrite Hc.
    + done.
    + simpl. unfold clearMessages. by fields.
    + simpl. unfold changeTab. destruct (decide (t = tabId s)); [done|].
      by simpl.
    + simpl. unfold onChunk.
      destruct (requests s !! rid) as [r0|] eqn:Hrid; [|done].
      rewrite (guard_never_holds s Hr). simpl. intros Hl.
      destruct (IH Hl) as (r & Hlast & Hs & Href).
      unfold latest in *. rewrite last_lookup in *.
      simpl. rewrite length_insert.
      destruct (decide (rid = pred (length (requests s)))) as [->|Hne].
      * rewrite Hrid in Hlast. injection Hlast as ->.
        eexists. split; [apply list_lookup_insert_eq; by eapply lookup_lt_Some|].
        done.
      * exists r. by rewrite list_lookup_insert_ne.
    + destruct (settle_sets_loading_false s (Resolve rid content st) I)
        as [-> | ->]; done.
    + destruct (settle_sets_loading_false s (Reject rid err) I)
        as [-> | ->]; done.
Qed.

Lemma loading_means_latest_pending_witness :
  exists r, latest asked = Some r /\ settled r = false /\
            abortControllerRef asked = Some (token r).
Proof.
  apply loading_means_latest_pending;
    [apply reachable_run, reachable_mount|reflexivity].
Defined.

(** A pending invocation keeps everything its closures captured; its
    accumulator grows by the chunks addressed to it, and it is settled
    once a resolution or rejection addressed to it has arrived. *)
Lemma request_step_full (s : State) (e : Event) (rid : nat) (r : Request) :
  reachable s ->
  requests s !! rid = Some r ->
  exists r',
    requests (step s e) !! rid = Some r' /\
    fullContent r' = fullContent r ++ concat (chunksOf rid [e]) /\
    settled r' = settled r || settles rid [e] /\
    c_tabId r' = c_tabId r /\ c_error r' = c_error r /\
    c_messages r' = c_messages r /\ call r' = call r.
Proof.
  intros Hr Hrid.
  pose proof (lookup_lt_Some _ _ _ Hrid) as Hlt.
  assert (Hsame : forall s', requests s' !! rid = Some r ->
            chunksOf rid [e] = [] -> settles rid [e] = false ->
            exists r', requests s' !! rid = Some r' /\
              fullContent r' = fullContent r ++ concat (chunksOf rid [e]) /\
              settled r' = settled r || settles rid [e] /\
              c_tabId r' = c_tabId r /\ c_error r' = c_error r /\
              c_messages r' = c_messages r /\ call r' = call r).
  { intros s' H' -> ->. exists r. simpl.
    by rewrite app_nil_r, orb_false_r. }
  destruct e as [content pc st|pc st| |t|rid' chunk|rid' content st|rid' err].
  - apply Hsame; try done. simpl.
    unfold sendMessage. destruct (negb (truthy (trim content))); [done|].
    fields. rewrite abortCurrent_requests. by rewrite lookup_app_l.
  - apply Hsame; try done. simpl. unfold summarizePage. fields.
    rewrite abortCurrent_requests. by rewrite lookup_app_l.
  - apply Hsame; try done. simpl. unfold clearMessages. fields.
    by rewrite abortCurrent_requests.
  - apply Hsame; try done. simpl. unfold changeTab.
    destruct (decide (t = tabId s)); [done|].
    simpl. by rewrite abortCurrent_requests.
  - destruct (decide (rid' = rid)) as [->|Hne].
    + simpl step. unfold onChunk. rewrite (guard_never_holds s Hr), Hrid.
      eexists. split; [by apply list_lookup_insert_eq|].
      simpl. destruct (decide (rid = rid)); [|done].
      simpl. by rewrite app_nil_r, orb_false_r.
    + apply Hsame; try done.
      * simpl. unfold onChunk. destruct (requests s !! rid'); [|done].
        destruct (currentAborted s); [done|].
        simpl. by rewrite list_lookup_insert_ne.
      * simpl. by destruct (decide (rid' = rid)).
  - destruct (decide (rid' = rid)) as [->|Hne].
    + simpl step. unfold onResolve. rewrite Hrid.
      simpl settles. rewrite bool_decide_eq_true_2 by done.
      destruct (settled r) eqn:Hs.
      * exists r. simpl. by rewrite app_nil_r, Hs.
      * exists (settle r). simpl. rewrite app_nil_r.
        split; [|done].
        destruct (currentAborted _); fields; by apply list_lookup_insert_eq.
    + apply Hsame; try done.
      * simpl. unfold onResolve. destruct (requests s !! rid') as [r0|]; [|done].
        destruct (settled r0); [done|].
        destruct (currentAborted _); fields; by rewrite list_lookup_insert_ne.
      * simpl. by rewrite bool_decide_eq_false_2.
  - destruct (decide (rid' = rid)) as [->|Hne].
    + simpl step. unfold onReject. rewrite Hrid.
      simpl settles. rewrite bool_decide_eq_true_2 by done.
      destruct (settled r) eqn:Hs.
      * exists r. simpl. by rewrite app_nil_r, Hs.
      * exists (settle r). simpl. rewrite app_nil_r.
        split; [|done].
        destruct (isAbortError err); fields; by apply list_lookup_insert_eq.
    + apply Hsame; try done.
      * simpl. unfold onReject. destruct (requests s !! rid') as [r0|]; [|done].
        destruct (settled r0); [done|].
        destruct (isAbortError err); fields; by rewrite list_lookup_insert_ne.
      * simpl. by rewrite bool_decide_eq_false_2.
Qed.

Lemma settles_app (rid : nat) (es es' : list Event) :
  settles rid (es ++ es') = settles rid es || settles rid es'.
Proof.
  induction es as [|e es IH]; [done|].
  destruct e; simpl; try done; by rewrite IH, orb_assoc.
Qed.

Lemma request_run_full (s : State) (es : list Event) (rid : nat) (r : Request) :
  reachable s ->
  requests s !! rid = Some r ->
  exists r',
    requests (run s es) !! rid = Some r' /\
    fullContent r' = fullContent r ++ concat (chunksOf rid es) /\
    settled r' = settled r || settles rid es /\
    c_tabId r' = c_tabId r /\ c_error r' = c_error r /\
    c_messages r' = c_messages r /\ call r' = call r.
Proof.
  revert s r. induction es as [|e es IH]; intros s r Hr Hrid.
  - exists r. simpl. by rewrite app_nil_r, orb_false_r.
  - destruct (request_step_full s e rid r Hr Hrid)
      as (r1 & H1 & Hf1 & Hs1 & Ht1 & He1 & Hm1 & Hc1).
    destruct (IH (step s e) r1 (reachable_step _ _ Hr) H1)
      as (r2 & H2 & Hf2 & Hs2 & Ht2 & He2 & Hm2 & Hc2).
    exists r2. split; [exact H2|].
    change (e :: es) with ([e] ++ es).
    rewrite chunksOf_app, settles_app, concat_app.
    rewrite Hf2, Hf1, Hs2, Hs1, app_assoc, orb_assoc.
    repeat split; congruence.
Qed.

(** X4.  From the call that issues it on, the text an invocation streams
    is the concatenation of its chunks: right after a chunk callback of
    the invocation issued by [e], the streaming content is the chunks
    delivered to that invocation so far, in arrival order, whatever
    other events came in between. *)
Theorem streaming_is_concatenation (s : State) (e : Event) (es : list Event)
    (chunk : jsstring) :
  reachable s ->
  creates s e = true ->
  streamingContent (run s (e :: es ++ [Chunk (length (requests s)) chunk])) =
    concat (chunksOf (length (requests s)) es) ++ chunk.
Proof.
  intros Hr Hc.
  destruct (created_request s e Hc) as (r & H1 & Hf & _).
  change (run s (e :: es ++ [Chunk (length (requests s)) chunk]))
    with (run (step s e) (es ++ [Chunk (length (requests s)) chunk])).
  rewrite (streaming_accumulates (step s e) _ r es chunk
             (reachable_step _ _ Hr) H1 Hf).
  rewrite chunksOf_app, concat_app. simpl.
  destruct (decide (length (requests s) = length (requests s))); [|done].
  simpl. by rewrite app_nil_r.
Qed.

Lemma streaming_is_concatenation_witness :
  streamingContent
    (run (mount ∅ (Some 1%Z))
       (SendMessage (lit "hi") None stampA
          :: [Chunk 0 (lit "Hel"); ClearMessages] ++ [Chunk 0 (lit "lo")]))
  = lit "Hello".
Proof.
  apply (streaming_is_concatenation (mount ∅ (Some 1%Z))
           (SendMessage (lit "hi") None stampA)
           [Chunk 0 (lit "Hel"); ClearMessages] (lit "lo"));
    [apply reachable_mount|reflexivity].
Defined.

(** X5.  When the provider call of an invocation resolves for the first
    time, an assistant message is appended to the displayed messages;
    its content is [response.content], or, when that is empty, the
    concatenation of the chunks the invocation received. *)
Theorem answer_falls_back_to_chunks (s : State) (e : Event) (es : list Event)
    (content : jsstring) (st : Stamp) :
  reachable s ->
  creates s e = true ->
  settles (length (requests s)) es = false ->
  messages (run s (e :: es ++ [Resolve (length (requests s)) content st])) =
    messages (run s (e :: es)) ++
    [newMessage st assistant
       (if truthy content then content
        else concat (chunksOf (length (requests s)) es))].
Proof.
  intros Hr Hc Hs.
  destruct (created_request s e Hc) as (r & H1 & Hf & Hu & _).
  change (run s (e :: es ++ [Resolve (length (requests s)) content st]))
    with (run (step s e) (es ++ [Resolve (length (requests s)) content st])).
  change (run s (e :: es)) with (run (step s e) es).
  destruct (request_run_full (step s e) es _ r (reachable_step _ _ Hr) H1)
    as (r' & H' & Hf' & Hs' & _).
  unfold run at 1. rewrite fold_left_app. fold (run (step s e) es).
  cbn [fold_left].
  rewrite (resolve_applied _ _ r' content st
             (reachable_run _ _ (reachable_step _ _ Hr)) H').
  - by rewrite Hf', Hf.
  - by rewrite Hs', Hu, Hs.
Qed.

Lemma answer_falls_back_to_chunks_witness :
  messages
    (run (mount ∅ (Some 1%Z))
       (SendMessage (lit "hi") None stampA
          :: [Chunk 0 (lit "Hel"); Chunk 0 (lit "lo")] ++ [Resolve 0 [] stampB]))
  = [newMessage stampA user (lit "hi");
     newMessage stampB assistant (lit "Hello")].
Proof.
  etrans.
  - apply (answer_falls_back_to_chunks (mount ∅ (Some 1%Z))
             (SendMessage (lit "hi") None stampA)
             [Chunk 0 (lit "Hel"); Chunk 0 (lit "lo")] [] stampB);
      [apply reachable_mount|reflexivity|reflexivity].
  - reflexivity.
Defined.

(** X6.  The answer of an invocation is saved under the tab the
    invocation was issued for, with the error that was displayed when it
    was issued: when its provider call resolves for the first time, the
    record of that tab becomes the list displayed at that moment plus
    the assistant message, whichever tab the hook shows by then. *)
Theorem answer_saved_under_issuing_tab (s : State) (e : Event)
    (es : list Event) (content : jsstring) (st : Stamp) (t : Z) :
  reachable s ->
  creates s e = true ->
  tabId s = Some t ->
  settles (length (requests s)) es = false ->
  tabChatStates
    (run s (e :: es ++ [Resolve (length (requests s)) content st])) !! t =
    Some {| tab_messages :=
              messages (run s (e :: es)) ++
              [newMessage st assistant
                 (if truthy content then content
                  else concat (chunksOf (length (requests s)) es))];
            tab_error := error s |}.
Proof.
  intros Hr Hc Ht Hs.
  destruct (created_request s e Hc) as (r & H1 & Hf & Hu & Htab & Herr & _).
  change (run s (e :: es ++ [Resolve (length (requests s)) content st]))
    with (run (step s e) (es ++ [Resolve (length (requests s)) content st])).
  change (run s (e :: es)) with (run (step s e) es).
  destruct (request_run_full (step s e) es _ r (reachable_step _ _ Hr) H1)
    as (r' & H' & Hf' & Hs' & Ht' & He' & _).
  unfold run at 1. rewrite fold_left_app. fold (run (step s e) es).
  cbn [fold_left step]. unfold onResolve. rewrite H'.
  rewrite Hs', Hu, Hs. cbn [orb].
  assert (Hg : currentAborted
                 (putRequest (length (requests s)) (settle r')
                    (run (step s e) es)) = false)
    by apply (guard_never_holds (run (step s e) es)
                (reachable_run _ _ (reachable_step _ _ Hr))).
  rewrite Hg, Ht', He', Htab, Herr, Ht, Hf', Hf. simpl.
  by rewrite lookup_insert_eq.
Qed.

Lemma answer_saved_under_issuing_tab_witness :
  tabChatStates
    (run (mount ∅ (Some 1%Z))
       (SendMessage (lit "hi") None stampA
          :: [TabChange (Some 2%Z)] ++ [Resolve 0 (lit "answer") stampB]))
    !! 1%Z
  = Some {| tab_messages := [newMessage stampB assistant (lit "answer")];
            tab_error := None |}.
Proof.
  etrans.
  - apply (answer_saved_under_issuing_tab (mount ∅ (Some 1%Z))
             (SendMessage (lit "hi") None stampA)
             [TabChange (Some 2%Z)] (lit "answer") stampB 1%Z);
      [apply reachable_mount|reflexivity..].
  - reflexivity.
Defined.

(** *** Switching away and back *)

Lemma abortCurrent_display (s : State) :
  tabId (abortCurrent s) = tabId s /\
  messages (abortCurrent s) = messages s /\
  error (abortCurrent s) = error s /\
  isLoading (abortCurrent s) = isLoading s /\
  streamingContent (abortCurrent s) = streamingContent s.
Proof. unfold abortCurrent. by destruct (abortControllerRef s). Qed.

Lemma abortCurrent_tabId (s : State) : tabId (abortCurrent s) = tabId s.
Proof. apply abortCurrent_display. Qed.

Lemma changeTab_other (t : option Z) (s : State) :
  t <> tabId s -> changeTab t s = tabEffect t s.
Proof. intros H. unfold changeTab. by destruct (decide (t = tabId s)). Qed.

Lemma tabEffect_fields (t : option Z) (s : State) :
  messages (tabEffect t s) = tab_messages (getTabState t (tabChatStates s)) /\
  error (tabEffect t s) = tab_error (getTabState t (tabChatStates s)) /\
  tabChatStates (tabEffect t s) = tabChatStates s /\
  tabId (tabEffect t s) = t /\
  isLoading (tabEffect t s) = false /\
  streamingContent (tabEffect t s) = [].
Proof. unfold tabEffect. simpl. by rewrite abortCurrent_map. Qed.

(** Leaving tab [t] for [t'] and coming back shows the record stored for
    [t]. *)
Lemma away_and_back (s : State) (t : Z) (t' : option Z) :
  tabId s = Some t ->
  t' <> Some t ->
  messages (run s [TabChange t'; TabChange (Some t)]) =
    tab_messages (getTabState (Some t) (tabChatStates s)) /\
  error (run s [TabChange t'; TabChange (Some t)]) =
    tab_error (getTabState (Some t) (tabChatStates s)) /\
  isLoading (run s [TabChange t'; TabChange (Some t)]) = false /\
  streamingContent (run s [TabChange t'; TabChange (Some t)]) = [].
Proof.
  intros Ht Hne. cbn [run fold_left step].
  rewrite (changeTab_other t' s) by congruence.
  destruct (tabEffect_fields t' s) as (_ & _ & Hm & Hi & _).
  rewrite (changeTab_other (Some t) (tabEffect t' s)) by (rewrite Hi; congruence).
  destruct (tabEffect_fields (Some t) (tabEffect t' s)) as (-> & -> & _ & _ & -> & ->).
  by rewrite Hm.
Qed.

(** X7.  A conversation survives a tab switch, its error does not stay
    cleared: after a [sendMessage] that passes the guard on tab [t],
    leaving for another tab and coming back displays the messages as
    they were right after the call, with the user message at the end,
    together with the error that was displayed before the call; loading
    is off although the provider call is still pending. *)
Theorem send_then_switch_back (s : State) (content : jsstring)
    (pageContext : option jsstring) (st : Stamp) (t : Z) (t' : option Z) :
  tabId s = Some t ->
  t' <> Some t ->
  truthy (trim content) = true ->
  messages (run s [SendMessage content pageContext st; TabChange t';
                   TabChange (Some t)]) =
    messages s ++ [newMessage st user (trim content)] /\
  error (run s [SendMessage content pageContext st; TabChange t';
                TabChange (Some t)]) = error s /\
  isLoading (run s [SendMessage content pageContext st; TabChange t';
                    TabChange (Some t)]) = false /\
  settled <$> latest (run s [SendMessage content pageContext st; TabChange t';
                             TabChange (Some t)]) = Some false.
Proof.
  intros Ht Hne Hc.
  set (s1 := step s (SendMessage content pageContext st)).
  assert (Ht1 : tabId s1 = Some t).
  { subst s1. simpl. unfold sendMessage. rewrite Hc. fields.
    by rewrite abortCurrent_tabId. }
  assert (Hm1 : tabChatStates s1 !! t =
                Some {| tab_messages := messages s ++ [newMessage st user (trim content)];
                        tab_error := error s |}).
  { subst s1. simpl. unfold sendMessage. rewrite Hc, Ht. simpl.
    by rewrite lookup_insert_eq. }
  change (run s [SendMessage content pageContext st; TabChange t';
                 TabChange (Some t)])
    with (run s1 [TabChange t'; TabChange (Some t)]).
  destruct (away_and_back s1 t t' Ht1 Hne) as (-> & -> & -> & _).
  simpl. rewrite Hm1. repeat split.
  cbn [run fold_left step].
  rewrite (changeTab_other t' s1) by congruence.
  destruct (tabEffect_fields t' s1) as (_ & _ & _ & Hi & _).
  rewrite (changeTab_other (Some t) (tabEffect t' s1)) by (rewrite Hi; congruence).
  unfold latest, tabEffect. simpl. rewrite !abortCurrent_requests.
  subst s1. simpl. unfold sendMessage. rewrite Hc. fields.
  by rewrite last_snoc.
Qed.

Lemma send_then_switch_back_witness :
  messages (run (mount ∅ (Some 1%Z))
              [SendMessage (lit " hi ") None stampA; TabChange (Some 2%Z);
               TabChange (Some 1%Z)])
  = [newMessage stampA user (lit "hi")].
Proof.
  assert (H2 : Some 2%Z <> Some 1%Z) by congruence.
  exact (proj1 (send_then_switch_back (mount ∅ (Some 1%Z)) (lit " hi ") None
                  stampA 1%Z (Some 2%Z) eq_refl H2 eq_refl)).
Defined.

(** X8.  [clearMessages] also empties the stored record: on tab [t],
    after [clearMessages], leaving for another tab and coming back
    displays no message and no error, and the record of [t] is the empty
    record. *)
Theorem clear_then_switch_back (s : State) (t : Z) (t' : option Z) :
  tabId s = Some t ->
  t' <> Some t ->
  messages (run s [ClearMessages; TabChange t'; TabChange (Some t)]) = [] /\
  error (run s [ClearMessages; TabChange t'; TabChange (Some t)]) = None /\
  tabChatStates (run s [ClearMessages; TabChange t'; TabChange (Some t)]) !! t
    = Some emptyTab.
Proof.
  intros Ht Hne.
  set (s1 := step s ClearMessages).
  assert (Ht1 : tabId s1 = Some t).
  { subst s1. simpl. unfold clearMessages. fields.
    by rewrite abortCurrent_tabId. }
  assert (Hm1 : tabChatStates s1 !! t = Some emptyTab).
  { subst s1. simpl. unfold clearMessages. rewrite Ht. simpl.
    by rewrite lookup_insert_eq. }
  change (run s [ClearMessages; TabChange t'; TabChange (Some t)])
    with (run s1 [TabChange t'; TabChange (Some t)]).
  destruct (away_and_back s1 t t' Ht1 Hne) as (-> & -> & _).
  simpl. rewrite Hm1. repeat split.
  cbn [run fold_left step].
  rewrite (changeTab_other t' s1) by congruence.
  destruct (tabEffect_fields t' s1) as (_ & _ & Hm & Hi & _).
  rewrite (changeTab_other (Some t) (tabEffect t' s1)) by (rewrite Hi; congruence).
  destruct (tabEffect_fields (Some t) (tabEffect t' s1)) as (_ & _ & -> & _).
  by rewrite Hm.
Qed.

Lemma clear_then_switch_back_witness :
  messages (run asked [ClearMessages; TabChange None; TabChange (Some 1%Z)]) = [] /\
  error (run asked [ClearMessages; TabChange None; TabChange (Some 1%Z)]) = None.
Proof.
  assert (H : (None : option Z) <> Some 1%Z) by congruence.
  destruct (clear_then_switch_back asked 1%Z None eq_refl H) as (Hm & He & _).
  split; assumption.
Defined.

(** *** What [sendMessage] sends *)

Lemma forallb_blank (s : jsstring) :
  forallb isWhiteSpace s = true <-> Forall blank s.
Proof.
  induction s as [|c s IH]; simpl; [by split|].
  rewrite andb_true_iff, Forall_cons. by rewrite IH.
Qed.

Lemma trimStart_split (s : jsstring) :
  exists ws, s = ws ++ trimStart s /\ Forall blank ws.
Proof.
  induction s as [|c s (ws & Hs & Hws)]; [by exists []|].
  simpl. destruct (isWhiteSpace c) eqn:Hc.
  - exists (c :: ws). split; [by rewrite Hs at 1|by constructor].
  - by exists [].
Qed.

Lemma trimStart_head (s : jsstring) (c : N) :
  head (trimStart s) = Some c -> isWhiteSpace c = false.
Proof.
  induction s as [|d s IH]; simpl; [done|].
  destruct (isWhiteSpace d) eqn:Hd; [done|].
  simpl. intros [= <-]. done.
Qed.

Lemma trimEnd_split (u : jsstring) :
  exists ws, u = trimEnd u ++ ws /\ Forall blank ws.
Proof.
  destruct (trimStart_split (rev u)) as (ws & Hs & Hws).
  exists (rev ws). split.
  - unfold trimEnd. rewrite <- rev_app_distr, <- Hs. by rewrite rev_involutive.
  - apply Forall_forall. intros c Hc.
    apply list_elem_of_In, in_rev, list_elem_of_In in Hc.
    by eapply Forall_forall in Hws.
Qed.

Lemma trimEnd_last (u : jsstring) (c : N) :
  last (trimEnd u) = Some c -> isWhiteSpace c = false.
Proof.
  unfold trimEnd. intros H. apply (trimStart_head (rev u)).
  destruct (trimStart (rev u)) as [|d l]; [done|].
  simpl in H. rewrite last_snoc in H. by injection H as ->.
Qed.

(** [trim] removes a run of white space at each end and nothing else. *)
Lemma trim_spec (s : jsstring) :
  exists l r,
    s = l ++ trim s ++ r /\ Forall blank l /\ Forall blank r /\
    (forall c, head (trim s) = Some c -> isWhiteSpace c = false) /\
    (forall c, last (trim s) = Some c -> isWhiteSpace c = false).
Proof.
  destruct (trimStart_split s) as (l & Hl & Hwl).
  destruct (trimEnd_split (trimStart s)) as (r & Hr & Hwr).
  exists l, r. unfold trim. repeat split; try done.
  - by rewrite <- Hr.
  - intros c Hc. apply (trimStart_head s). rewrite Hr.
    by destruct (trimEnd (trimStart s)).
  - apply trimEnd_last.
Qed.

Lemma trim_truthy (s : jsstring) :
  forallb isWhiteSpace s = false -> truthy (trim s) = true.
Proof.
  intros H. destruct (trim s) eqn:E; [|done].
  destruct (trim_spec s) as (l & r & Hs & Hl & Hr & _).
  rewrite E in Hs. simpl in Hs.
  assert (forallb isWhiteSpace s = true); [|congruence].
  apply forallb_blank. rewrite Hs. by apply Forall_app.
Qed.

(** X9.  [sendMessage] leaves the state as it is exactly when its input
    is empty or white space only; any other input changes the state. *)
Theorem send_noop_iff_blank (s : State) (content : jsstring)
    (pageContext : option jsstring) (st : Stamp) :
  step s (SendMessage content pageContext st) = s <->
  forallb isWhiteSpace content = true.
Proof.
  split.
  - intros H. destruct (forallb isWhiteSpace content) eqn:Hb; [done|].
    pose proof (requests_length_step s (SendMessage content pageContext st))
      as Hlen.
    rewrite H in Hlen. simpl in Hlen. rewrite (trim_truthy _ Hb) in Hlen. lia.
  - intros H. simpl. unfold sendMessage. by rewrite (trim_blank _ H).
Qed.

Lemma send_noop_iff_blank_witness :
  step asked (SendMessage [32%N; 9%N] None stampB) = asked.
Proof.
  apply (proj2 (send_noop_iff_blank asked [32%N; 9%N] None stampB)).
  reflexivity.
Defined.

(** X10.  For an input that is not blank, [sendMessage] appends one user
    message to the displayed messages; its content is the input without
    the white space at its two ends: it is not empty, and neither
    begins nor ends with white space. *)
Theorem user_message_is_trimmed (s : State) (content : jsstring)
    (pageContext : option jsstring) (st : Stamp) :
  forallb isWhiteSpace content = false ->
  exists m l r,
    messages (step s (SendMessage content pageContext st)) = messages s ++ [m] /\
    m_role m = user /\
    content = l ++ m_content m ++ r /\
    Forall blank l /\ Forall blank r /\
    m_content m <> [] /\
    (forall c, head (m_content m) = Some c -> isWhiteSpace c = false) /\
    (forall c, last (m_content m) = Some c -> isWhiteSpace c = false).
Proof.
  intros Hb. pose proof (trim_truthy _ Hb) as Ht.
  destruct (trim_spec content) as (l & r & Hs & Hl & Hr & Hh & Hla).
  exists (newMessage st user (trim content)), l, r.
  repeat split; try done.
  - simpl. unfold sendMessage. rewrite Ht. by fields.
  - simpl. by destruct (trim content).
Qed.

Lemma user_message_is_trimmed_witness :
  exists m l r,
    messages (step (mount ∅ (Some 1%Z))
                (SendMessage (lit "  hi there ") None stampA)) = [m] /\
    lit "  hi there " = l ++ m_content m ++ r /\
    m_content m <> [].
Proof.
  destruct (user_message_is_trimmed (mount ∅ (Some 1%Z)) (lit "  hi there ")
              None stampA eq_refl)
    as (m & l & r & Hm & _ & Hc & _ & _ & Hn & _).
  exists m, l, r. repeat split; assumption.
Defined.

(** X11.  The provider call issued by [sendMessage] for an input that is
    not blank carries the displayed messages followed by the new user
    message, and a system prompt that is the fixed prompt followed by a
    tail.  The tail is empty when the page context is absent or empty;
    otherwise it is the header followed by the first 10000 code units of
    the context, the whole context when it is no longer than that. *)
Theorem chat_call_arguments (s : State) (content : jsstring)
    (pageContext : option jsstring) (st : Stamp) :
  forallb isWhiteSpace content = false ->
  exists r tail,
    latest (step s (SendMessage content pageContext st)) = Some r /\
    call r =
      ChatCall (messages s ++ [newMessage st user (trim content)])
        (basePrompt ++ tail) /\
    length tail <= length contextHeader + N.to_nat 10000 /\
    (pageContext = None \/ pageContext = Some [] -> tail = []) /\
    (forall pc, pageContext = Some pc -> pc <> [] ->
       length pc <= N.to_nat 10000 -> tail = contextHeader ++ pc) /\
    (forall pc, pageContext = Some pc -> pc <> [] ->
       exists kept dropped,
         tail = contextHeader ++ kept /\
         pc = kept ++ dropped /\
         length kept = Nat.min (N.to_nat 10000) (length pc)).
Proof.
  intros Hb. pose proof (trim_truthy _ Hb) as Ht.
  assert (Hp : exists tail,
             systemPromptOf pageContext = basePrompt ++ tail /\
             length tail <= length contextHeader + N.to_nat 10000 /\
             (pageContext = None \/ pageContext = Some [] -> tail = []) /\
             (forall pc, pageContext = Some pc -> pc <> [] ->
                length pc <= N.to_nat 10000 -> tail = contextHeader ++ pc) /\
             (forall pc, pageContext = Some pc -> pc <> [] ->
                exists kept dropped,
                  tail = contextHeader ++ kept /\
                  pc = kept ++ dropped /\
                  length kept = Nat.min (N.to_nat 10000) (length pc))).
  { destruct pageContext as [[|c pc]|]; unfold systemPromptOf; cbn [truthy].
    - exists []. rewrite app_nil_r. split; [done|]. split; [cbn [length]; lia|].
      split; [done|]. split; by intros pc [= <-] Hne.
    - exists (contextHeader ++ slice 0 10000 (c :: pc)).
      unfold slice. rewrite N.sub_0_r. change (N.to_nat 0) with 0.
      rewrite drop_0.
      split; [done|]. split; [rewrite length_app, length_take; lia|].
      split; [by intros [|]|]. split.
      + intros pc' [= <-] _ Hlen. by rewrite take_ge.
      + intros pc' [= <-] _.
        exists (take (N.to_nat 10000) (c :: pc)),
               (drop (N.to_nat 10000) (c :: pc)).
        split; [done|]. split; [by rewrite take_drop|apply length_take].
    - exists []. rewrite app_nil_r. split; [done|]. split; [cbn [length]; lia|].
      split; [done|]. split; intros pc Hpc; discriminate Hpc. }
  destruct Hp as (tail & Hp & Hlen & Hnone & Hsome & Hcut).
  eexists _, tail. split; [|split; [|done]].
  - unfold latest. simpl. unfold sendMessage. rewrite Ht. fields.
    apply last_snoc.
  - simpl. by rewrite Hp.
Qed.

Lemma chat_call_arguments_witness :
  exists r tail,
    latest (step (mount ∅ (Some 1%Z))
              (SendMessage (lit "hi") (Some (lit "page")) stampA)) = Some r /\
    call r = ChatCall [newMessage stampA user (lit "hi")] (basePrompt ++ tail) /\
    tail = contextHeader ++ lit "page".
Proof.
  destruct (chat_call_arguments (mount ∅ (Some 1%Z)) (lit "hi")
              (Some (lit "page")) stampA eq_refl)
    as (r & tail & Hl & Hc & _ & _ & Hs & _).
  exists r, tail. repeat split; [exact Hl|exact Hc|].
  apply (Hs (lit "page") eq_refl); [discriminate|].
  change (length (lit "page")) with 4. lia.
Defined.

End UseChatMore.

(** ** Further properties of [parseContent] and of the rendering *)

Module MarkdownMore.

Import Markdown MarkdownView JsFacts MarkdownSpec.
Local Open Scope nat_scope.

Lemma starts_with_length (l s : jsstring) :
  starts_with l s = true -> length l <= length s.
Proof.
  intros H. rewrite (starts_with_inv _ _ H), length_app. lia.
Qed.

(** Only the first [length l] code units of the input decide whether the
    literal matches at its head. *)
Lemma starts_with_longer (l s e : jsstring) :
  length l <= length s -> starts_with l (s ++ e) = starts_with l s.
Proof.
  revert s. induction l as [|p l IH]; intros s H; [done|].
  destruct s as [|c s]; simpl in *; [lia|].
  rewrite IH by lia. done.
Qed.

(** Text appended to the input does not move the first occurrence of a
    literal. *)
Lemma lazy_then_extend (l s e cap rest : jsstring) :
  lazy_then l s = Some (cap, rest) ->
  lazy_then l (s ++ e) = Some (cap, rest ++ e).
Proof.
  revert cap rest. induction s as [|c s IH]; intros cap rest H;
    rewrite lazy_then_unfold in H.
  - destruct (starts_with l []) eqn:E; [|done].
    injection H as <- <-.
    pose proof (starts_with_length _ _ E) as Hl.
    destruct l; [|simpl in Hl; lia].
    simpl. by destruct e.
  - rewrite lazy_then_unfold.
    destruct (starts_with l (c :: s)) eqn:E.
    + injection H as <- <-.
      pose proof (starts_with_length _ _ E) as Hl.
      change ((c :: s) ++ e) with ((c :: s) ++ e).
      rewrite (starts_with_longer l (c :: s) e Hl), E.
      by rewrite drop_app_le.
    + destruct (lazy_then l s) as [[cap' rest']|] eqn:E'; [|done].
      injection H as <- <-.
      destruct (lazy_then_Some _ _ _ _ E') as [Hs _].
      assert (Hl : length l <= length (c :: s)).
      { rewrite Hs. simpl. rewrite !length_app. lia. }
      rewrite (starts_with_longer l (c :: s) e Hl), E.
      simpl. by rewrite (IH _ _ eq_refl).
Qed.

(** A closing tag after some opening tag lies after the first opening
    tag as well. *)
Lemma closing_after_first_opening (content a b d pre r : jsstring) :
  content = a ++ open_tag ++ b ++ close_tag ++ d ->
  lazy_then open_tag content = Some (pre, r) ->
  exists x y, r = x ++ close_tag ++ y.
Proof.
  intros Hc Eo.
  destruct (lazy_then_Some _ _ _ _ Eo) as [Hpre Hmin].
  assert (Hle : length pre <= length a) by (by eapply Hmin).
  assert (Hr : r = drop (length (pre ++ open_tag)) content).
  { rewrite Hpre at 1. by rewrite app_assoc, drop_app_length. }
  exists (drop (length (pre ++ open_tag)) (a ++ open_tag ++ b)), d.
  rewrite Hr, Hc.
  replace (a ++ open_tag ++ b ++ close_tag ++ d)
    with ((a ++ open_tag ++ b) ++ close_tag ++ d)
    by (by rewrite <- !app_assoc).
  apply drop_occurrence. rewrite !length_app. lia.
Qed.

(** X12.  [parseContent] classifies every text by its tags: there is no
    thinking part exactly when the text has no opening tag; the result
    is marked streaming exactly when the text has an opening tag and no
    closing tag after any opening tag, and then the main content is
    empty. *)
Theorem parseContent_classifies (content : jsstring) :
  (thinking (parseContent content) = None <->
   forall a b, content <> a ++ open_tag ++ b) /\
  (isThinkingStreaming (parseContent content) = true <->
   (exists a b, content = a ++ open_tag ++ b) /\
   (forall a b d, content <> a ++ open_tag ++ b ++ close_tag ++ d)) /\
  (isThinkingStreaming (parseContent content) = true ->
   mainContent (parseContent content) = []).
Proof.
  unfold parseContent.
  rewrite match_closed_lazy, match_streaming_lazy.
  destruct (lazy_then open_tag content) as [[pre r]|] eqn:Eo.
  - destruct (lazy_then_Some _ _ _ _ Eo) as [Hpre _].
    destruct (lazy_then close_tag r) as [[g1 post]|] eqn:Ec;
      cbn [thinking isThinkingStreaming mainContent].
    + destruct (lazy_then_Some _ _ _ _ Ec) as [Hr _].
      split; [|split]; [| |done].
      * split; [done|]. intros H. by apply H in Hpre.
      * split; [done|]. intros (_ & H). rewrite Hr in Hpre. by apply H in Hpre.
    + split; [|split]; [| |done].
      * split; [done|]. intros H. by apply H in Hpre.
      * split; [|done]. intros _. split; [eauto|].
        intros a b d Hc.
        destruct (closing_after_first_opening _ _ _ _ _ _ Hc Eo) as (x & y & Hr).
        by eapply lazy_then_None in Ec.
  - cbn [thinking isThinkingStreaming mainContent].
    split; [|split]; [| |done].
    + split; [|done]. intros _ a b. by apply lazy_then_None.
    + split; [done|]. intros ((a & b & H) & _).
      by eapply lazy_then_None in Eo.
Qed.

Lemma parseContent_classifies_witness :
  mainContent (parseContent (lit "Intro <think>step")) = [] /\
  thinking (parseContent (lit "no tag")) = None.
Proof.
  split.
  - apply (proj2 (proj2 (parseContent_classifies (lit "Intro <think>step")))).
    reflexivity.
  - apply (proj1 (parseContent_classifies (lit "no tag"))).
    intros a b E.
    assert (L : length (lit "no tag") = length (a ++ open_tag ++ b))
      by (by rewrite <- E).
    rewrite !length_app in L.
    change (length open_tag) with 7 in L.
    change (length (lit "no tag")) with 6 in L. lia.
Defined.

(** X13.  Once a thinking block is closed, text streamed afterwards
    never changes it: for a text that contains a closed block, appending
    any text leaves the thinking part as it is and the result not
    streaming. *)
Theorem closed_block_is_stable (content extra a b d : jsstring) :
  content = a ++ open_tag ++ b ++ close_tag ++ d ->
  thinking (parseContent (content ++ extra)) = thinking (parseContent content) /\
  isThinkingStreaming (parseContent (content ++ extra)) = false /\
  isThinkingStreaming (parseContent content) = false.
Proof.
  intros Hc. unfold parseContent. rewrite !match_closed_lazy.
  destruct (lazy_then_found open_tag a (b ++ close_tag ++ d)) as (pre & r & Eo).
  rewrite <- Hc in Eo.
  destruct (closing_after_first_opening _ _ _ _ _ _ Hc Eo) as (x & y & Hr).
  destruct (lazy_then_found close_tag x y) as (g1 & post & Ec).
  rewrite <- Hr in Ec.
  rewrite (lazy_then_extend _ _ extra _ _ Eo), Eo.
  rewrite (lazy_then_extend _ _ extra _ _ Ec), Ec. done.
Qed.

Lemma closed_block_is_stable_witness :
  thinking (parseContent (lit "<think>plan</think>The ans" ++ lit "wer is <think>"))
  = thinking (parseContent (lit "<think>plan</think>The ans")).
Proof.
  apply (closed_block_is_stable (lit "<think>plan</think>The ans")
           (lit "wer is <think>") [] (lit "plan") (lit "The ans") eq_refl).
Defined.

Lemma no_match_without_first_unit (p : N) (l s : jsstring) :
  Forall (fun c => c <> p) s -> lazy_then (p :: l) s = None.
Proof.
  induction 1 as [|c s Hc Hs IH]; [done|].
  rewrite lazy_then_unfold. simpl.
  destruct (N.eqb_spec p c) as [->|_]; [done|]. simpl.
  change (lazy_then (p :: l) s) with (lazy_then (p :: l) s). by rewrite IH.
Qed.

Lemma first_match_after_plain_text (p : N) (l pre r : jsstring) :
  Forall (fun c => c <> p) pre ->
  lazy_then (p :: l) (pre ++ (p :: l) ++ r) = Some (pre, r).
Proof.
  induction 1 as [|c pre Hc Hpre IH].
  - rewrite lazy_then_unfold.
    change ([] ++ (p :: l) ++ r) with ((p :: l) ++ r).
    rewrite starts_with_app. by rewrite drop_app_length.
  - rewrite lazy_then_unfold.
    change ((c :: pre) ++ (p :: l) ++ r) with (c :: (pre ++ (p :: l) ++ r)).
    cbn [starts_with].
    destruct (N.eqb_spec p c) as [->|_]; [done|]. cbn [andb].
    by rewrite IH.
Qed.

(** X14.  While a thinking block is open, the component renders no main
    content, whatever text came before the tag: for a text
    [pre ++ <think> ++ rest] where neither part contains a [<], only the
    thinking block is rendered, with the trimmed [rest] and marked
    streaming, and nothing at all is rendered while [rest] is blank. *)
Theorem open_block_hides_the_text (pre rest : jsstring) :
  Forall (fun c => c <> 60%N) pre ->
  Forall (fun c => c <> 60%N) rest ->
  render (pre ++ open_tag ++ rest) =
    {| thinkingBlock :=
         if truthy (trim rest) then Some (trim rest, true) else None;
       markdownBody := None |}.
Proof.
  intros Hpre Hrest. unfold render, parseContent.
  rewrite match_closed_lazy, match_streaming_lazy.
  change open_tag with (60%N :: lit "think>").
  rewrite (first_match_after_plain_text 60%N _ pre rest Hpre).
  change close_tag with (60%N :: lit "/think>").
  rewrite (no_match_without_first_unit 60%N _ rest Hrest).
  reflexivity.
Qed.

Lemma open_block_hides_the_text_witness :
  render (lit "Intro. " ++ open_tag ++ lit " ") =
    {| thinkingBlock := None; markdownBody := None |} /\
  render (lit "Intro. " ++ open_tag ++ lit "step 1") =
    {| thinkingBlock := Some (lit "step 1", true); markdownBody := None |}.
Proof.
  split.
  - etrans.
    + apply open_block_hides_the_text;
        repeat (constructor; [discriminate|]); constructor.
    + reflexivity.
  - etrans.
    + apply open_block_hides_the_text;
        repeat (constructor; [discriminate|]); constructor.
    + reflexivity.
Defined.

End MarkdownMore.

(** ** The combobox *)

Module ComboboxSpec.

Import Combobox Session JsFacts UseChatMore.
Local Open Scope nat_scope.

Lemma includes_unfold (hay needle : jsstring) :
  includes hay needle =
    starts_with needle hay ||
    match hay with
    | [] => false
    | _ :: hay' => includes hay' needle
    end.
Proof. by destruct hay. Qed.

(** [includes] finds exactly the substrings. *)
Lemma includes_spec (hay needle : jsstring) :
  includes hay needle = true <-> exists x y, hay = x ++ needle ++ y.
Proof.
  split.
  - induction hay as [|c hay IH]; simpl.
    + rewrite orb_false_r. intros H. exists [], (drop (length needle) []).
      by apply starts_with_inv.
    + intros H. apply orb_prop in H as [H|H].
      * exists [], (drop (length needle) (c :: hay)). by apply starts_with_inv.
      * destruct (IH H) as (x & y & ->). by exists (c :: x), y.
  - intros (x & y & ->). induction x as [|c x IH]; rewrite includes_unfold.
    + change ([] ++ needle ++ y) with (needle ++ y).
      by rewrite starts_with_app.
    + change ((c :: x) ++ needle ++ y) with (c :: (x ++ needle ++ y)).
      cbv beta iota. rewrite IH. apply orb_true_r.
Qed.

Lemma filter_sublist {A} (f : A -> bool) (l : list A) :
  List.filter f l `sublist_of` l.
Proof.
  induction l as [|a l IH]; simpl; [constructor|].
  destruct (f a); by constructor.
Qed.

Section WithLowerCase.

Variable toLowerCase : jsstring -> jsstring.

(** X15.  Typing into the combobox passes the typed text, untrimmed, to
    [onChange] once and opens the list.  For a blank text all options
    are offered; otherwise the offered options are those, in their
    original order, whose lower-cased label or value contains the
    lower-cased text as typed. *)
Theorem typing_filters_options (options : list ComboboxOption)
    (inputValue : jsstring) (st : CState) :
  snd (handleInputChange toLowerCase options inputValue st) = [inputValue] /\
  isOpen (fst (handleInputChange toLowerCase options inputValue st)) = true /\
  filteredOptions (fst (handleInputChange toLowerCase options inputValue st))
    `sublist_of` options /\
  (forallb isWhiteSpace inputValue = true ->
   filteredOptions (fst (handleInputChange toLowerCase options inputValue st))
   = options) /\
  (forallb isWhiteSpace inputValue = false ->
   forall o,
     o ∈ filteredOptions (fst (handleInputChange toLowerCase options inputValue st))
     <->
     o ∈ options /\
     ((exists x y, toLowerCase (label o) = x ++ toLowerCase inputValue ++ y) \/
      (exists x y, toLowerCase (value o) = x ++ toLowerCase inputValue ++ y))).
Proof.
  unfold handleInputChange.
  destruct (forallb isWhiteSpace inputValue) eqn:Hb.
  - rewrite (trim_blank _ Hb). simpl. repeat split; done.
  - rewrite (trim_truthy _ Hb). simpl.
    split; [done|]. split; [done|]. split; [apply filter_sublist|].
    split; [done|]. intros _ o.
    rewrite list_elem_of_In, filter_In, <- list_elem_of_In.
    unfold matchesInput. rewrite orb_true_iff, !includes_spec. done.
Qed.

(** X16.  Typing a text that is not blank and pressing Enter, the value
    prop following [onChange]: when an offered option already has the
    typed text as its value, Enter only closes the list; otherwise Enter
    selects the first offered option, passing its value to [onChange],
    and closes the list; when no option is offered, Enter does nothing
    and the list state stays open. *)
Theorem typing_then_enter (options : list ComboboxOption)
    (inputValue : jsstring) (st : CState) :
  forallb isWhiteSpace inputValue = false ->
  let offered := List.filter (matchesInput toLowerCase inputValue) options in
  let typed := fst (handleInputChange toLowerCase options inputValue st) in
  (offered = [] ->
   handleKeyDown inputValue (lit "Enter") typed = (typed, [])) /\
  (forall o, o ∈ offered -> value o = inputValue ->
   handleKeyDown inputValue (lit "Enter") typed = (setIsOpen false typed, [])) /\
  (forall first others,
     offered = first :: others ->
     (forall o, o ∈ offered -> value o <> inputValue) ->
     handleKeyDown inputValue (lit "Enter") typed
     = (setIsOpen false typed, [value first])).
Proof.
  intros Hb offered typed.
  assert (Ht : typed = {| isOpen := true; filteredOptions := offered |}).
  { subst typed offered. unfold handleInputChange.
    by rewrite (trim_truthy _ Hb). }
  unfold handleKeyDown.
  rewrite !bool_decide_eq_false_2 by (by vm_compute).
  rewrite bool_decide_eq_true_2 by done.
  rewrite Ht. cbn [isOpen filteredOptions andb].
  split; [|split].
  - by intros ->.
  - intros o Ho Hv.
    destruct offered as [|o1 rest] eqn:Eo; [by apply elem_of_nil in Ho|].
    cbn [length Nat.eqb negb].
    destruct (findValue inputValue (o1 :: rest)) eqn:Ef; [done|].
    exfalso. unfold findValue in Ef.
    assert (Hin : In o (o1 :: rest)) by (by apply list_elem_of_In).
    pose proof (find_none _ _ Ef o Hin) as Hf. simpl in Hf.
    by rewrite bool_decide_eq_true_2 in Hf.
  - intros o1 rest -> Hno. cbn [length Nat.eqb negb].
    destruct (findValue inputValue (o1 :: rest)) as [m|] eqn:Ef; [|done].
    exfalso. unfold findValue in Ef. apply find_some in Ef as [Hin Hm].
    apply bool_decide_eq_true_1 in Hm.
    by apply (Hno m); [apply list_elem_of_In|].
Qed.

End WithLowerCase.

Lemma typing_filters_options_witness :
  filteredOptions
    (fst (handleInputChange (fun s => s)
            [ {| value := lit "a1"; label := lit "abc" |};
              {| value := lit "b2"; label := lit "xyz" |} ]
            (lit "  ") {| isOpen := false; filteredOptions := [] |}))
  = [ {| value := lit "a1"; label := lit "abc" |};
      {| value := lit "b2"; label := lit "xyz" |} ].
Proof.
  destruct (typing_filters_options (fun s => s)
              [ {| value := lit "a1"; label := lit "abc" |};
                {| value := lit "b2"; label := lit "xyz" |} ]
              (lit "  ") {| isOpen := false; filteredOptions := [] |})
    as (_ & _ & _ & H & _).
  apply H. reflexivity.
Defined.

Lemma typing_then_enter_witness :
  handleKeyDown (lit "b") (lit "Enter")
    (fst (handleInputChange (fun s => s)
            [ {| value := lit "a1"; label := lit "abc" |};
              {| value := lit "b2"; label := lit "xyz" |};
              {| value := lit "c3"; label := lit "bcd" |} ]
            (lit "b") {| isOpen := false; filteredOptions := [] |}))
  = ({| isOpen := false;
        filteredOptions :=
          [ {| value := lit "a1"; label := lit "abc" |};
            {| value := lit "b2"; label := lit "xyz" |};
            {| value := lit "c3"; label := lit "bcd" |} ] |},
     [lit "a1"]).
Proof.
  pose proof (typing_then_enter (fun s => s)
                [ {| value := lit "a1"; label := lit "abc" |};
                  {| value := lit "b2"; label := lit "xyz" |};
                  {| value := lit "c3"; label := lit "bcd" |} ]
                (lit "b") {| isOpen := false; filteredOptions := [] |}
                eq_refl) as H.
  cbv zeta in H. destruct H as (_ & _ & H).
  etrans.
  - apply (H {| value := lit "a1"; label := lit "abc" |}
             [ {| value := lit "b2"; label := lit "xyz" |};
               {| value := lit "c3"; label := lit "bcd" |} ] eq_refl).
    intros o Ho.
    repeat (apply elem_of_cons in Ho as [->|Ho]; [discriminate|]).
    by apply elem_of_nil in Ho.
  - reflexivity.
Defined.



End ComboboxSpec.

(** ** The icon crop *)

Module IconsSpec.

Import Icons.
Local Open Scope Z_scope.

(** X18.  For an image of positive width and height, the crop passed to
    [extract] is a square of side [min w h] that lies inside the image,
    touches two opposite edges, and is centred up to one pixel of
    rounding, the extra pixel falling on the right or bottom side. *)
Theorem crop_is_centred_square (w h : Z) :
  0 < w -> 0 < h ->
  width (cropRegion w h) = Z.min w h /\
  height (cropRegion w h) = Z.min w h /\
  0 <= left (cropRegion w h) /\
  0 <= top (cropRegion w h) /\
  left (cropRegion w h) + width (cropRegion w h) <= w /\
  top (cropRegion w h) + height (cropRegion w h) <= h /\
  (left (cropRegion w h) = 0 \/ top (cropRegion w h) = 0) /\
  0 <= (w - width (cropRegion w h) - left (cropRegion w h))
         - left (cropRegion w h) <= 1 /\
  0 <= (h - height (cropRegion w h) - top (cropRegion w h))
         - top (cropRegion w h) <= 1.
Proof.
  intros Hw Hh. unfold cropRegion. simpl.
  destruct (Z.min_spec w h) as [[Hlt ->]|[Hle ->]];
    rewrite Z.sub_diag; change (0 / 2) with 0;
    Z.div_mod_to_equations; lia.
Qed.

Lemma crop_is_centred_square_witness :
  left (cropRegion 1921 1080) = 420 /\
  left (cropRegion 1921 1080) + width (cropRegion 1921 1080) <= 1921 /\
  top (cropRegion 1921 1080) = 0.
Proof.
  destruct (crop_is_centred_square 1921 1080 eq_refl eq_refl)
    as (_ & _ & _ & _ & H & _).
  split; [reflexivity|]. split; [exact H|reflexivity].
Defined.

End IconsSpec.

(** ** Summaries *)

Module SummarySpec.

Import UseChat Session JsFacts UseChatSpec UseChatMore.
Local Open Scope nat_scope.

#[local] Hint Rewrite save_messages save_error save_streaming save_loading
  save_ref save_controllers save_requests save_tabId : chat_fields.

(** X19.  [summarizePage] starts a new conversation: whatever was
    displayed before, the displayed messages and the record of the bound
    tab become the single summary request, the provider receives the
    page content in full, and when that call resolves first the
    conversation is the request followed by the answer. *)
Theorem summarize_replaces_conversation (s : State) (pageContent : jsstring)
    (st st' : Stamp) (content : jsstring) (t : Z) :
  reachable s ->
  tabId s = Some t ->
  messages (step s (SummarizePage pageContent st))
    = [newMessage st user summaryRequest] /\
  tab_messages <$> tabChatStates (step s (SummarizePage pageContent st)) !! t
    = Some [newMessage st user summaryRequest] /\
  call <$> latest (step s (SummarizePage pageContent st))
    = Some (SummarizeCall pageContent) /\
  messages (run s [SummarizePage pageContent st;
                   Resolve (length (requests s)) content st'])
    = [newMessage st user summaryRequest;
       newMessage st' assistant (if truthy content then content else [])].
Proof.
  intros Hr Ht.
  assert (Hm : messages (step s (SummarizePage pageContent st))
               = [newMessage st user summaryRequest]).
  { simpl. unfold summarizePage. by fields. }
  split; [exact Hm|]. split; [|split].
  - simpl. unfold summarizePage. rewrite Ht. simpl.
    by rewrite lookup_insert_eq.
  - unfold latest. simpl. unfold summarizePage. fields.
    by rewrite last_snoc.
  - destruct (created_request s (SummarizePage pageContent st) eq_refl)
      as (r & H1 & Hf & Hu & _).
    change (run s [SummarizePage pageContent st;
                   Resolve (length (requests s)) content st'])
      with (step (step s (SummarizePage pageContent st))
              (Resolve (length (requests s)) content st')).
    rewrite (resolve_applied _ _ r content st' (reachable_step _ _ Hr) H1 Hu).
    by rewrite Hm, Hf.
Qed.

Lemma summarize_replaces_conversation_witness :
  messages (run asked [SummarizePage (lit "page text") stampB;
                       Resolve 1 (lit "summary") stampB])
  = [newMessage stampB user summaryRequest;
     newMessage stampB assistant (lit "summary")].
Proof.
  destruct (summarize_replaces_conversation asked (lit "page text")
              stampB stampB (lit "summary") 1%Z
              (reachable_run _ _ (reachable_mount _ _)) eq_refl)
    as (_ & _ & _ & H).
  exact H.
Defined.

End SummarySpec.

(** ** The popups of the combobox *)

Module ComboboxPopups.

Import Combobox Session JsFacts UseChatMore ComboboxSpec.
Local Open Scope nat_scope.

Section WithLowerCase.

Variable toLowerCase : jsstring -> jsstring.

(** X20.  After the user typed a text that is not blank, the value prop
    following [onChange], exactly one popup is shown: the option list
    when some option contains the text, the hint that a custom value
    will be used when none does. *)
Theorem one_popup_after_typing (options : list ComboboxOption)
    (inputValue : jsstring) (st : CState) :
  forallb isWhiteSpace inputValue = false ->
  (showsList (fst (handleInputChange toLowerCase options inputValue st)) = true
   <-> exists o, o ∈ options /\ matchesInput toLowerCase inputValue o = true) /\
  (showsCustomHint inputValue
     (fst (handleInputChange toLowerCase options inputValue st)) = true
   <-> forall o, o ∈ options -> matchesInput toLowerCase inputValue o = false) /\
  showsCustomHint inputValue
    (fst (handleInputChange toLowerCase options inputValue st))
  = negb (showsList (fst (handleInputChange toLowerCase options inputValue st))).
Proof.
  intros Hb. unfold handleInputChange, showsList, showsCustomHint.
  rewrite (trim_truthy _ Hb). simpl. rewrite andb_true_r.
  destruct (List.filter (matchesInput toLowerCase inputValue) options)
    as [|o1 rest] eqn:Ef; simpl.
  - split; [|split; [|done]].
    + split; [done|]. intros (o & Ho & Hm).
      assert (Hin : In o (List.filter (matchesInput toLowerCase inputValue)
                            options))
        by (apply filter_In; split; [by apply list_elem_of_In|done]).
      by rewrite Ef in Hin.
    + split; [|done]. intros _ o Ho.
      destruct (matchesInput toLowerCase inputValue o) eqn:Hm; [|done].
      assert (Hin : In o (List.filter (matchesInput toLowerCase inputValue)
                            options))
        by (apply filter_In; split; [by apply list_elem_of_In|done]).
      by rewrite Ef in Hin.
  - assert (Hin : In o1 (List.filter (matchesInput toLowerCase inputValue)
                           options)) by (rewrite Ef; by left).
    apply filter_In in Hin as [Hin Hm]. apply list_elem_of_In in Hin.
    split; [|split; [|done]].
    + split; [eauto|done].
    + split; [done|]. intros H. rewrite (H o1 Hin) in Hm. done.
Qed.

End WithLowerCase.

Lemma one_popup_after_typing_witness :
  showsCustomHint (lit "zz")
    (fst (handleInputChange (fun s => s)
            [ {| value := lit "a1"; label := lit "abc" |} ]
            (lit "zz") {| isOpen := false; filteredOptions := [] |}))
  = negb (showsList
            (fst (handleInputChange (fun s => s)
                    [ {| value := lit "a1"; label := lit "abc" |} ]
                    (lit "zz") {| isOpen := false; filteredOptions := [] |}))).
Proof.
  apply (one_popup_after_typing (fun s => s)
           [ {| value := lit "a1"; label := lit "abc" |} ]
           (lit "zz") {| isOpen := false; filteredOptions := [] |} eq_refl).
Defined.

End ComboboxPopups.
